(** * ZenParticles 3D: particle field generator and gesture bridge

    A shallow embedding of the TypeScript sources

    - [utils/geometry.ts]   ([randomPointInSphere], [generateParticles]),
    - [services/vision.ts]  ([initializeHandDetection], [detectHands],
      [calculateGestureData]),
    - [components/ParticleMesh.tsx] (the [useMemo] buffers, the
      [useFrame] callback and the two shaders),
    - [App.tsx]             (the detection loop and the error message of
      [startDetection]),
    - the script that fetches the model ([download] and the loop over the
      mirrors),

    followed by the properties of the specification that can be stated
    over it.

    Numbers.  A JavaScript [number] is modelled as an extended real:
    a finite real, one of the two infinities, or NaN.  Arithmetic on finite
    operands is exact (binary64 rounding and overflow are not modelled, and
    the two zeros are identified); the operations that leave the finite
    reals in JavaScript (division by zero, square root and [acos] outside
    their domains, sums of opposite infinities, ...) leave them here too.
    A statement about finite operands therefore speaks of the program as
    long as no intermediate value overflows; where a statement is meant for
    operands of any size, it bounds them or allows for NaN.
    Storing into a [Float32Array] keeps the value when it is in the binary32
    range and overflows to an infinity otherwise.

    Randomness.  [Math.random] reads the head of an explicit infinite
    stream of draws and leaves the tail; the generators thread the stream
    through a state monad. *)

From Stdlib Require Import Reals Lra Psatz ZArith Bool String.
From stdpp Require Import base list.

Open Scope R_scope.

(* ================================================================= *)
(** ** JavaScript numbers and the [Math] object *)

Module JS.

Inductive number : Type :=
| Fin (r : R)
| Inf (negative : bool)
| NaN.

Definition is_negative (r : R) : bool :=
  if Rlt_dec r 0 then true else false.

Definition is_zero (r : R) : bool :=
  if Req_dec_T r 0 then true else false.

Definition neg (a : number) : number :=
  match a with
  | Fin p => Fin (- p)
  | Inf s => Inf (negb s)
  | NaN => NaN
  end.

Definition add (a b : number) : number :=
  match a, b with
  | Fin p, Fin q => Fin (p + q)
  | NaN, _ | _, NaN => NaN
  | Inf s, Inf t => if Bool.eqb s t then Inf s else NaN
  | Inf s, Fin _ | Fin _, Inf s => Inf s
  end.

Definition sub (a b : number) : number :=
  match a, b with
  | Fin p, Fin q => Fin (p - q)
  | _, _ => add a (neg b)
  end.

Definition mul (a b : number) : number :=
  match a, b with
  | Fin p, Fin q => Fin (p * q)
  | NaN, _ | _, NaN => NaN
  | Inf s, Inf t => Inf (xorb s t)
  | Inf s, Fin q | Fin q, Inf s =>
      if is_zero q then NaN else Inf (xorb s (is_negative q))
  end.

Definition div (a b : number) : number :=
  match a, b with
  | Fin p, Fin q =>
      if is_zero q
      then (if is_zero p then NaN else Inf (is_negative p))
      else Fin (p / q)
  | NaN, _ | _, NaN => NaN
  | Inf _, Inf _ => NaN
  | Inf s, Fin q => Inf (xorb s (is_negative q))
  | Fin _, Inf _ => Fin 0
  end.

(** [a < b]; every comparison with NaN is false. *)
Definition lt (a b : number) : bool :=
  match a, b with
  | Fin p, Fin q => if Rlt_dec p q then true else false
  | NaN, _ | _, NaN => false
  | Inf s, Inf t => s && negb t
  | Inf s, Fin _ => s
  | Fin _, Inf t => negb t
  end.

Definition gt (a b : number) : bool := lt b a.

(** [a === b] on numbers; NaN equals nothing. *)
Definition strict_eq (a b : number) : bool :=
  match a, b with
  | Fin p, Fin q => if Req_dec_T p q then true else false
  | Inf s, Inf t => Bool.eqb s t
  | _, _ => false
  end.

(** Truthiness of a number: 0 and NaN are falsy. *)
Definition truthy (a : number) : bool :=
  match a with
  | Fin p => negb (is_zero p)
  | Inf _ => true
  | NaN => false
  end.

(** [a || b] on numbers. *)
Definition or_else (a b : number) : number :=
  if truthy a then a else b.

(** Cube root of a real, odd and total. *)
Definition Rcbrt (r : R) : R :=
  if Rlt_dec 0 r then Rpower r (/ 3)
  else if Rlt_dec r 0 then - Rpower (- r) (/ 3)
  else 0.

(** A real is an integer when it equals its own floor. *)
Definition is_integer (r : R) : bool :=
  if Req_dec_T r (IZR (Int_part r)) then true else false.

Definition is_odd_integer (r : R) : bool :=
  is_integer r && Z.odd (Int_part r).

Definition Math_min (a b : number) : number :=
  match a, b with
  | Fin p, Fin q => Fin (Rmin p q)
  | NaN, _ | _, NaN => NaN
  | Inf s, Inf t => Inf (s || t)
  | Inf s, Fin q => if s then Inf true else Fin q
  | Fin p, Inf t => if t then Inf true else Fin p
  end.

Definition Math_max (a b : number) : number :=
  match a, b with
  | Fin p, Fin q => Fin (Rmax p q)
  | NaN, _ | _, NaN => NaN
  | Inf s, Inf t => Inf (s && t)
  | Inf s, Fin q => if s then Fin q else Inf false
  | Fin p, Inf t => if t then Fin p else Inf false
  end.

Definition Math_sqrt (a : number) : number :=
  match a with
  | Fin p => if Rlt_dec p 0 then NaN else Fin (sqrt p)
  | Inf s => if s then NaN else Inf false
  | NaN => NaN
  end.

Definition Math_sin (a : number) : number :=
  match a with
  | Fin p => Fin (sin p)
  | _ => NaN
  end.

Definition Math_cos (a : number) : number :=
  match a with
  | Fin p => Fin (cos p)
  | _ => NaN
  end.

Definition Math_acos (a : number) : number :=
  match a with
  | Fin p => if Rlt_dec p (-1) then NaN
             else if Rlt_dec 1 p then NaN
             else Fin (acos p)
  | _ => NaN
  end.

Definition Math_cbrt (a : number) : number :=
  match a with
  | Fin p => Fin (Rcbrt p)
  | Inf s => Inf s
  | NaN => NaN
  end.

Definition Math_floor (a : number) : number :=
  match a with
  | Fin p => Fin (IZR (Int_part p))
  | _ => a
  end.

(** [Math.pow], after Number::exponentiate of the language definition. *)
Definition Math_pow (base exponent : number) : number :=
  match exponent with
  | NaN => NaN
  | Fin e =>
      if is_zero e then Fin 1
      else match base with
           | NaN => NaN
           | Inf false => if Rlt_dec 0 e then Inf false else Fin 0
           | Inf true =>
               if Rlt_dec 0 e then Inf (is_odd_integer e) else Fin 0
           | Fin b =>
               if Rlt_dec 0 b then Fin (Rpower b e)
               else if is_zero b
               then (if Rlt_dec 0 e then Fin 0 else Inf false)
               else if is_integer e then Fin (powerRZ b (Int_part e))
               else NaN
           end
  | Inf s =>
      match base with
      | NaN => NaN
      | Inf _ => if s then Fin 0 else Inf false
      | Fin b =>
          if Rlt_dec 1 (Rabs b) then (if s then Fin 0 else Inf false)
          else if Rlt_dec (Rabs b) 1 then (if s then Inf false else Fin 0)
          else NaN
      end
  end.

Definition Math_PI : number := Fin PI.

(** *** [Float32Array] *)

(** The least magnitude that binary32 rounding sends to an infinity:
    2^128 - 2^103. *)
Definition float32_overflow : R :=
  IZR (2 ^ 128 - 2 ^ 103).

Definition Math_fround (a : number) : number :=
  match a with
  | Fin p => if Rlt_dec (Rabs p) float32_overflow then Fin p
             else Inf (is_negative p)
  | _ => a
  end.

Abbreviation Float32Array := (list number) (only parsing).

Definition new_Float32Array (length : nat) : Float32Array :=
  replicate length (Fin 0).

(** [arr[i] = v]: the value is converted to binary32; a write past the end
    of a typed array is ignored. *)
Definition set_index (arr : Float32Array) (i : nat) (v : number)
  : Float32Array :=
  <[ i := Math_fround v ]> arr.

(** *** Completions *)

(** The result of running code that may throw. *)
Inductive completion (A : Type) : Type :=
| Normal (a : A)
| Throw (error : string).

Arguments Normal {A} a.
Arguments Throw {A} error.

Definition bind {A B : Type} (c : completion A) (k : A -> completion B)
  : completion B :=
  match c with
  | Normal a => k a
  | Throw e => Throw e
  end.

(** Reading a property of [arr[i]]: a [TypeError] when the element is
    [undefined]. *)
Definition element {A : Type} (arr : list A) (i : nat) : completion A :=
  match arr !! i with
  | Some a => Normal a
  | None => Throw "TypeError"
  end.

(** *** [Math.random] *)

(** The random source: the draws still to come. *)
Definition rng : Type := nat -> R.

Definition Rand (A : Type) : Type := rng -> A * rng.

Definition ret {A : Type} (a : A) : Rand A := fun s => (a, s).

Definition rbind {A B : Type} (m : Rand A) (k : A -> Rand B) : Rand B :=
  fun s => let (a, s') := m s in k a s'.

Definition Math_random : Rand number :=
  fun s => (Fin (s 0%nat), fun n => s (S n)).

End JS.

Import JS.

Declare Scope js_scope.
Delimit Scope js_scope with js.
Notation "a + b" := (add a b) : js_scope.
Notation "a - b" := (sub a b) : js_scope.
Notation "a * b" := (mul a b) : js_scope.
Notation "a / b" := (div a b) : js_scope.
Notation "a <? b" := (lt a b) (at level 70) : js_scope.
Notation "a >? b" := (gt a b) (at level 70) : js_scope.
Notation "a '|||' b" := (or_else a b) (at level 50, left associativity)
  : js_scope.
Notation "# r" := (Fin r) (at level 9, r at level 9, format "# r") : js_scope.

Notation "a === b" := (strict_eq a b) (at level 70) : js_scope.

Notation "'let!' x ':=' c 'in' k" := (bind c (fun x => k))
  (at level 10, x name, c at level 100, k at level 200) : js_scope.
Notation "'let*' x ':=' m 'in' k" := (rbind m (fun x => k))
  (at level 10, x name, m at level 100, k at level 200) : js_scope.

(* ================================================================= *)
(** ** services/vision.ts *)

Module Vision.

Record NormalizedLandmark : Type := {
  x : number;
  y : number;
  z : number
}.

(** Only the [landmarks] field is read; it may be absent. *)
Record HandLandmarkerResult : Type := {
  landmarks : option (list (list NormalizedLandmark))
}.

(** The detector is an external object: [detectForVideo] either returns a
    result or throws. *)
Record HandLandmarker (Video : Type) : Type := {
  detectForVideo : Video -> number -> completion HandLandmarkerResult
}.

Arguments detectForVideo {Video} _ _ _.

(** [handLandmarker] is the module-level variable, [None] for [null];
    [None] as a result is [null]. *)
Definition detectHands {Video : Type}
    (handLandmarker : option (HandLandmarker Video))
    (video : Video) (startTimeMs : number)
  : option HandLandmarkerResult :=
  match handLandmarker with
  | None => None
  | Some h =>
      match detectForVideo h video startTimeMs with
      | Normal r => Some r
      | Throw _ => None
      end
  end.

Record GestureData : Type := {
  expansion : number;
  lift : number
}.

Open Scope js_scope.

Definition calculateGestureData (result : HandLandmarkerResult)
  : completion GestureData :=
  let expansion := #0 in
  let lift := #0.5 in
  match landmarks result with
  | None => Normal {| expansion := expansion; lift := lift |}
  | Some hands =>
    if (length hands =? 0)%nat
    then Normal {| expansion := expansion; lift := lift |}
    else if (length hands =? 2)%nat then
      let! h0 := element hands 0 in
      let! h1 := element hands 1 in
      let! hand1 := element h0 0 in
      let! hand2 := element h1 0 in
      let dx := x hand1 - x hand2 in
      let dy := y hand1 - y hand2 in
      let distance := Math_sqrt (dx * dx + dy * dy) in
      let minD := #0.15 in
      let maxD := #0.50 in
      let raw := (distance - minD) / (maxD - minD) in
      let expansion := Math_min (Math_max raw #0) #1 in
      let lift := (y hand1 + y hand2) / #2 in
      Normal {| expansion := expansion; lift := lift |}
    else if (length hands =? 1)%nat then
      let! hand := element hands 0 in
      let! thumbTip := element hand 4 in
      let! pinkyTip := element hand 20 in
      let! wrist := element hand 0 in
      let! middleMCP := element hand 9 in
      let spreadDx := x thumbTip - x pinkyTip in
      let spreadDy := y thumbTip - y pinkyTip in
      let spread := Math_sqrt (spreadDx * spreadDx + spreadDy * spreadDy) in
      let sizeDx := x middleMCP - x wrist in
      let sizeDy := y middleMCP - y wrist in
      let handSize :=
        Math_sqrt (sizeDx * sizeDx + sizeDy * sizeDy) ||| #0.1 in
      let normalizedSpread := spread / handSize in
      let minSpread := #0.5 in
      let maxSpread := #1.2 in
      let raw := (normalizedSpread - minSpread) / (maxSpread - minSpread) in
      let expansion := Math_min (Math_max raw #0) #1 in
      let lift := y wrist in
      Normal {| expansion := expansion; lift := lift |}
    else Normal {| expansion := expansion; lift := lift |}
  end.

Close Scope js_scope.

End Vision.

(* ================================================================= *)
(** ** three.js *)

Module THREE.

Record Vector3 : Type := {
  x : number;
  y : number;
  z : number
}.

Open Scope js_scope.

(** Modelled from the spec: [THREE.MathUtils.lerp] belongs to the three.js
    library, which is not among the sources.  The specification describes
    the smoothing as the current value approaching the target exponentially
    with a fixed weight per frame, which is linear interpolation
    [(1 - t) * x + t * y], the body of the library function. *)
Definition lerp (x y t : number) : number :=
  (#1 - t) * x + t * y.

Close Scope js_scope.

End THREE.

(* ================================================================= *)
(** ** Loops *)

(** [for (let i = start; i < bound; i += stride) body]: [fuel] bounds the
    number of iterations, and [bound] iterations are always enough when
    [stride] is positive. *)
Fixpoint for_loop {S : Type} (fuel : nat) (i stride bound : nat)
    (body : nat -> S -> Rand S) (st : S) : Rand S :=
  match fuel with
  | O => ret st
  | Datatypes.S fuel' =>
      if (i <? bound)%nat
      then rbind (body i st)
                 (fun st' => for_loop fuel' (i + stride) stride bound body st')
      else ret st
  end.

(* ================================================================= *)
(** ** types.ts *)

(** The members of the string enum [ShapeType]; at run time any string can
    reach the [switch] of the generator. *)
Definition ShapeType : Type := string.

Definition HEART : ShapeType := "HEART"%string.
Definition ROSE : ShapeType := "ROSE"%string.
Definition SATURN : ShapeType := "SATURN"%string.
Definition DL : ShapeType := "DL"%string.
Definition TREE : ShapeType := "TREE"%string.

(* ================================================================= *)
(** ** utils/geometry.ts *)

Module Geometry.

Import THREE.

Open Scope js_scope.

Definition randomPointInSphere (radius : number) : Rand Vector3 :=
  let* u := Math_random in
  let* v := Math_random in
  let theta := #2 * Math_PI * u in
  let phi := Math_acos (#2 * v - #1) in
  let* w := Math_random in
  let r := Math_cbrt w * radius in
  let sinPhi := Math_sin phi in
  ret {| x := r * sinPhi * Math_cos theta;
         y := r * sinPhi * Math_sin theta;
         z := r * Math_cos phi |}.

(** The closure [setPoint] of [generateParticles], with the buffer it
    writes made explicit. *)
Definition setPoint (positions : Float32Array) (i : nat) (x y z : number)
  : Float32Array :=
  let positions := set_index positions (i * 3) x in
  let positions := set_index positions (i * 3 + 1) y in
  set_index positions (i * 3 + 2) z.

(** [case ShapeType.HEART] *)
Definition case_HEART (positions : Float32Array) (i : nat)
  : Rand Float32Array :=
  let* t0 := Math_random in
  let t := t0 * Math_PI * #2 in
  let x := #16 * Math_pow (Math_sin t) #3 in
  let y := #13 * Math_cos t - #5 * Math_cos (#2 * t)
           - #2 * Math_cos (#3 * t) - Math_cos (#4 * t) in
  let* r := Math_random in
  let* scale_z :=
    if r <? #0.7 then
      let* a := Math_random in
      let scale := #0.95 + a * #0.15 in
      let* b := Math_random in
      let z := (b - #0.5) * #1.5 in
      ret (scale, z)
    else
      let* a := Math_random in
      let scale := Math_pow a #0.5 in
      let* b := Math_random in
      let z := (b - #0.5) * #8.0 * scale in
      ret (scale, z) in
  let (scale, z) := scale_z in
  let x := x * scale in
  let y := y * scale in
  ret (setPoint positions i (x * #0.15) (y * #0.15) (z * #0.15)).

(** [case ShapeType.ROSE] *)
Definition case_ROSE (positions : Float32Array) (i : nat)
  : Rand Float32Array :=
  let* s := Math_random in
  let isStem := s <? #0.15 in
  if isStem then
    let* h := Math_random in
    let y := #(-1.5) - (h * #2.5) in
    let curveX := Math_sin (y * #2.0) * #0.1 in
    let* r0 := Math_random in
    let r := r0 * #0.08 in
    let* t0 := Math_random in
    let theta := t0 * Math_PI * #2 in
    let x := curveX + r * Math_cos theta in
    let z := r * Math_sin theta in
    let* thorn := Math_random in
    let* x_z :=
      if thorn <? #0.05 then
        let* a := Math_random in
        let x := x + (a - #0.5) * #0.4 in
        let* b := Math_random in
        let z := z + (b - #0.5) * #0.4 in
        ret (x, z)
      else ret (x, z) in
    let (x, z) := x_z in
    ret (setPoint positions i x y z)
  else
    let* v := Math_random in
    let* u0 := Math_random in
    let u := u0 * Math_PI * #2 in
    let r := Math_pow v #0.6 * #1.5 in
    let petal := Math_sin (u * #3.0 + v * #10.0) in
    let r := r + petal * #0.2 * v in
    let x := r * Math_cos u in
    let z := r * Math_sin u in
    let y := (v * #3.0) - #1.5 in
    ret (setPoint positions i x y z).

(** [case ShapeType.SATURN] *)
Definition case_SATURN (positions : Float32Array) (i : nat)
  : Rand Float32Array :=
  let* s := Math_random in
  let isRing := s >? #0.4 in
  if isRing then
    let* a := Math_random in
    let angle := a * Math_PI * #2 in
    let* d := Math_random in
    let dist := #3 + d * #2 in
    let* j := Math_random in
    ret (setPoint positions i
           (Math_cos angle * dist) ((j - #0.5) * #0.1) (Math_sin angle * dist))
  else
    let* p := randomPointInSphere #1.8 in
    ret (setPoint positions i (x p) (y p) (z p)).

(** [case ShapeType.DL], letter D *)
Definition letter_D (positions : Float32Array) (i : nat)
  : Rand Float32Array :=
  let* r := Math_random in
  let D_CenterX := #(-1.8) in
  if r <? #0.7 then
    let* stroke := Math_random in
    if stroke <? #0.4 then
      let* a := Math_random in
      let x := #(-2.5) + (a - #0.5) * #0.2 in
      let* b := Math_random in
      let y := (b - #0.5) * #3.0 in
      let* c := Math_random in
      ret (setPoint positions i x y ((c - #0.5) * #0.3))
    else
      let* a := Math_random in
      let angle := (a - #0.5) * Math_PI in
      let* b := Math_random in
      let rad := #1.5 + (b - #0.5) * #0.2 in
      let x := #(-2.0) + rad * Math_cos angle in
      let y := rad * Math_sin angle in
      let* c := Math_random in
      ret (setPoint positions i x y ((c - #0.5) * #0.3))
  else
    let* part := Math_random in
    if part <? #0.5 then
      let* a := Math_random in
      let x := #(-2.5) + a * #0.5 in
      let* b := Math_random in
      let y := (b - #0.5) * #2.8 in
      let* c := Math_random in
      ret (setPoint positions i x y ((c - #0.5) * #0.5))
    else
      let* a := Math_random in
      let angle := (a - #0.5) * Math_PI in
      let* b := Math_random in
      let rad := b * #1.5 in
      let x := #(-2.0) + rad * Math_cos angle in
      let y := rad * Math_sin angle in
      let* c := Math_random in
      ret (setPoint positions i (Math_max x #(-2.0)) y ((c - #0.5) * #0.5)).

(** [case ShapeType.DL], letter L *)
Definition letter_L (positions : Float32Array) (i : nat)
  : Rand Float32Array :=
  let* r := Math_random in
  if r <? #0.7 then
    let* s := Math_random in
    let side := Math_floor (s * #6) in
    let x := #0 in
    let y := #0 in
    let jitter := #0.1 in
    let* x_y :=
      if side === #0 then
        let* a := Math_random in
        let x := #1.0 + (a - #0.5) * jitter in
        let* b := Math_random in
        let y := (b - #0.5) * #3.0 in
        ret (x, y)
      else if side === #1 then
        let* a := Math_random in
        let x := #1.0 + a * #0.5 in
        let* b := Math_random in
        let y := #1.5 + (b - #0.5) * jitter in
        ret (x, y)
      else if side === #2 then
        let* a := Math_random in
        let x := #1.5 + (a - #0.5) * jitter in
        let* b := Math_random in
        let y := #(-1.0) + b * #2.5 in
        ret (x, y)
      else if side === #3 then
        let* a := Math_random in
        let x := #1.5 + a * #1.0 in
        let* b := Math_random in
        let y := #(-1.0) + (b - #0.5) * jitter in
        ret (x, y)
      else if side === #4 then
        let* a := Math_random in
        let x := #2.5 + (a - #0.5) * jitter in
        let* b := Math_random in
        let y := #(-1.5) + b * #0.5 in
        ret (x, y)
      else if side === #5 then
        let* a := Math_random in
        let x := #1.0 + a * #1.5 in
        let* b := Math_random in
        let y := #(-1.5) + (b - #0.5) * jitter in
        ret (x, y)
      else ret (x, y) in
    let (x, y) := x_y in
    let* c := Math_random in
    ret (setPoint positions i x y ((c - #0.5) * #0.3))
  else
    let* part := Math_random in
    if part <? #0.6 then
      let* a := Math_random in
      let x := #1.0 + a * #0.5 in
      let* b := Math_random in
      let y := (b - #0.5) * #3.0 in
      let* c := Math_random in
      ret (setPoint positions i x y ((c - #0.5) * #0.5))
    else
      let* a := Math_random in
      let x := #1.5 + a * #1.0 in
      let* b := Math_random in
      let y := #(-1.5) + b * #0.5 in
      let* c := Math_random in
      ret (setPoint positions i x y ((c - #0.5) * #0.5)).

(** [case ShapeType.DL] *)
Definition case_DL (count : nat) (positions : Float32Array) (i : nat)
  : Rand Float32Array :=
  let isD := #(INR i) <? #(INR count) / #2 in
  if isD then letter_D positions i else letter_L positions i.

(** [case ShapeType.TREE] *)
Definition case_TREE (positions : Float32Array) (i : nat)
  : Rand Float32Array :=
  let* s := Math_random in
  if s >? #0.95 then
    let* p := randomPointInSphere #0.3 in
    ret (setPoint positions i (x p) (y p + #2.2) (z p))
  else
    let* h := Math_random in
    let maxR := (#1.0 - h) * #1.8 in
    let* a := Math_random in
    let r := Math_sqrt a * maxR in
    let* b := Math_random in
    let theta := b * Math_PI * #2 in
    let y := h * #4.0 - #2.0 in
    let spiralOffset := Math_sin (y * #10 + theta * #5) * #0.1 in
    let x := (r + spiralOffset) * Math_cos theta in
    let z := (r + spiralOffset) * Math_sin theta in
    ret (setPoint positions i x y z).

(** The body of the [for] loop: the [switch] on the shape. *)
Definition generateParticles_body (shape : ShapeType) (count : nat)
    (i : nat) (positions : Float32Array) : Rand Float32Array :=
  if String.eqb shape HEART then case_HEART positions i
  else if String.eqb shape ROSE then case_ROSE positions i
  else if String.eqb shape SATURN then case_SATURN positions i
  else if String.eqb shape DL then case_DL count positions i
  else if String.eqb shape TREE then case_TREE positions i
  else ret (setPoint positions i #0 #0 #0).

Definition generateParticles (shape : ShapeType) (count : nat)
  : Rand Float32Array :=
  let positions := new_Float32Array (count * 3) in
  for_loop count 0 1 count (generateParticles_body shape count) positions.

Close Scope js_scope.

End Geometry.

(* ================================================================= *)
(** ** components/ParticleMesh.tsx *)

Module ParticleMesh.

Import Vision.

Open Scope js_scope.

(** One iteration of the loop that fills the explosion directions. *)
Definition randomness_body (i : nat) (rand : Float32Array)
  : Rand Float32Array :=
  let* a := Math_random in
  let x := a - #0.5 in
  let* b := Math_random in
  let y := b - #0.5 in
  let* c := Math_random in
  let z := c - #0.5 in
  let len := Math_sqrt (x * x + y * y + z * z) ||| #1 in
  let rand := set_index rand i (x / len) in
  let rand := set_index rand (i + 1) (y / len) in
  ret (set_index rand (i + 2) (z / len)).

(** The value of the [useMemo] hook: [{ positions, randomness }]. *)
Record Buffers : Type := {
  positions : Float32Array;
  randomness : Float32Array
}.

Definition useMemo_buffers (shape : ShapeType) (count : nat)
  : Rand Buffers :=
  let* pos := Geometry.generateParticles shape count in
  let rand := new_Float32Array (count * 3) in
  let* rand := for_loop (count * 3) 0 3 (count * 3) randomness_body rand in
  ret {| positions := pos; randomness := rand |}.

(** What the frame callback reads and writes: the uniforms of the shader
    material and the rotation of the points object. *)
Record ShaderMaterial : Type := {
  uTime : number;
  uExpansion : number;
  uColor : string
}.

Record Points : Type := {
  rotation_x : number;
  rotation_y : number
}.

(** The two refs; [None] is a [current] that is still [null]. *)
Record Refs : Type := {
  materialRef : option ShaderMaterial;
  meshRef : option Points
}.

(** The callback given to [useFrame]; [elapsedTime] is
    [state.clock.getElapsedTime()] and [gesture] is [gestureRef.current]. *)
Definition useFrame (shape : ShapeType) (color : string)
    (gesture : GestureData) (elapsedTime : number) (refs : Refs) : Refs :=
  let material :=
    match materialRef refs with
    | Some m =>
        let currentExpansion := uExpansion m in
        let targetExpansion := expansion gesture in
        let lerpSpeed := #0.1 in
        Some {| uTime := elapsedTime;
                uColor := color;
                uExpansion :=
                  THREE.lerp currentExpansion targetExpansion lerpSpeed |}
    | None => None
    end in
  let mesh :=
    match meshRef refs with
    | Some p =>
        let rotation_y :=
          if negb (String.eqb shape HEART) && negb (String.eqb shape DL)
          then rotation_y p + #0.001
          else rotation_y p in
        let targetTilt := (lift gesture - #0.5) * #1.5 in
        Some {| rotation_y := rotation_y;
                rotation_x := THREE.lerp (rotation_x p) targetTilt #0.05 |}
    | None => None
    end in
  {| materialRef := material; meshRef := mesh |}.

Close Scope js_scope.

End ParticleMesh.

(* ================================================================= *)
(** ** App.tsx: the detection loop *)

Module App.

Import Vision.

Record HTMLVideoElement : Type := {
  readyState : nat
}.

(** The state the loop touches: the [detectedHands] state variable, the
    gesture mailbox [gestureRef.current], the handle kept in
    [requestRef.current], the browser's counter of animation-frame
    requests, and the lines written by [console.error]. *)
Record State : Type := {
  detectedHands : nat;
  gestureRef : GestureData;
  requestRef : option nat;
  frameRequests : nat;
  console : list string
}.

Definition setDetectedHands (n : nat) (st : State) : State :=
  {| detectedHands := n;
     gestureRef := gestureRef st;
     requestRef := requestRef st;
     frameRequests := frameRequests st;
     console := console st |}.

Definition set_gestureRef (data : GestureData) (st : State) : State :=
  {| detectedHands := detectedHands st;
     gestureRef := data;
     requestRef := requestRef st;
     frameRequests := frameRequests st;
     console := console st |}.

Definition console_error (line : string) (st : State) : State :=
  {| detectedHands := detectedHands st;
     gestureRef := gestureRef st;
     requestRef := requestRef st;
     frameRequests := frameRequests st;
     console := console st ++ [line] |}.

(** [requestRef.current = requestAnimationFrame(loop)]: the loop is queued
    again under a fresh handle. *)
Definition requestAnimationFrame_loop (st : State) : State :=
  {| detectedHands := detectedHands st;
     gestureRef := gestureRef st;
     requestRef := Some (S (frameRequests st));
     frameRequests := S (frameRequests st);
     console := console st |}.

(** The [try] block of the loop: the state it leaves and how it ends. *)
Definition loop_try
    (handLandmarker : option (HandLandmarker HTMLVideoElement))
    (video : HTMLVideoElement) (now : number) (st : State)
  : State * completion unit :=
  match detectHands handLandmarker video now with
  | Some result =>
      match landmarks result with
      | Some hands =>
          let st := setDetectedHands (length hands) st in
          match calculateGestureData result with
          | Normal data => (set_gestureRef data st, Normal tt)
          | Throw e => (st, Throw e)
          end
      | None => (setDetectedHands 0 st, Normal tt)
      end
  | None => (setDetectedHands 0 st, Normal tt)
  end.

(** One run of [loop]; [videoRef] is [videoRef.current] and [now] is
    [Date.now()]. *)
Definition loop
    (handLandmarker : option (HandLandmarker HTMLVideoElement))
    (videoRef : option HTMLVideoElement) (now : number) (st : State)
  : State :=
  let st :=
    match videoRef with
    | Some video =>
        if (2 <=? readyState video)%nat then
          match loop_try handLandmarker video now st with
          | (st, Normal _) => st
          | (st, Throw e) =>
              setDetectedHands 0
                (console_error ("detectHands error " ++ e)%string st)
          end
        else st
    | None => st
    end in
  requestAnimationFrame_loop st.

(** What one animation frame presents to the loop. *)
Record Frame : Type := {
  frame_detector : option (HandLandmarker HTMLVideoElement);
  frame_video : option HTMLVideoElement;
  frame_now : number
}.

(** The loop over a sequence of frames. *)
Definition run (frames : list Frame) (st : State) : State :=
  fold_left
    (fun st f => loop (frame_detector f) (frame_video f) (frame_now f) st)
    frames st.

End App.

(* ================================================================= *)
(** ** The vocabulary of the specification *)

Module Spec.

(** [clamp(v, lo, hi)] *)
Definition clamp (v lo hi : R) : R :=
  if Rlt_dec v lo then lo else if Rlt_dec hi v then hi else v.

(** Linear rescaling of the input range [[lo, hi]] to [[0, 1]]. *)
Definition rescale (v lo hi : R) : R := (v - lo) / (hi - lo).

(** Euclidean distance between two points of the image plane. *)
Definition distance (x1 y1 x2 y2 : R) : R :=
  sqrt ((x1 - x2) ^ 2 + (y1 - y2) ^ 2).

(** Euclidean norm of a vector of space. *)
Definition norm (x y z : R) : R := sqrt (x ^ 2 + y ^ 2 + z ^ 2).

(** The hand-size reference with the small constant substituted for 0. *)
Definition guarded (h : R) : R := if Req_dec_T h 0 then 0.1 else h.

(** A number that is neither NaN nor an infinity. *)
Definition finite (a : number) : Prop := exists r, a = Fin r.

(** A number in the interval [[0, 1]]. *)
Definition in_unit (a : number) : Prop := exists r, a = Fin r /\ 0 <= r <= 1.

(** Every draw of the random source lies in [[0, 1)]. *)
Definition uniform (s : rng) : Prop := forall n, 0 <= s n < 1.

(** A finite number of magnitude at most 10^150: its square, and a sum of
    a few such squares, stay below the largest binary64 number, so the
    arithmetic of the calculator cannot overflow on it. *)
Definition moderate (a : number) : Prop :=
  exists r, a = Fin r /\ Rabs r <= 10 ^ 150.

Definition moderate_landmark (p : Vision.NormalizedLandmark) : Prop :=
  moderate (Vision.x p) /\ moderate (Vision.y p).

(** All coordinates of a result are moderate. *)
Definition moderate_result (result : Vision.HandLandmarkerResult) : Prop :=
  match Vision.landmarks result with
  | Some hands => Forall (Forall moderate_landmark) hands
  | None => True
  end.

(** The wrist of every hand is vertically inside the image. *)
Definition wrists_in_frame (result : Vision.HandLandmarkerResult) : Prop :=
  match Vision.landmarks result with
  | Some hands =>
      Forall (fun hand => match hand !! 0%nat with
                          | Some wrist => in_unit (Vision.y wrist)
                          | None => True
                          end) hands
  | None => True
  end.

(** The number of detected hands; an absent [landmarks] counts as none. *)
Definition hand_count (result : Vision.HandLandmarkerResult) : nat :=
  match Vision.landmarks result with
  | Some hands => length hands
  | None => 0
  end.

(** [s'] is what is left of the random source [s] after some draws. *)
Definition suffix (s s' : rng) : Prop :=
  exists d, forall n, s' n = s (d + n)%nat.

(** A finite number of magnitude at most 64. *)
Definition small (a : number) : Prop := exists r, a = Fin r /\ Rabs r <= 64.

(** What a case of the generator's [switch] does: one call of [setPoint] at
    the particle's index with three small coordinates, leaving a suffix of
    the random source it was given. *)
Definition writes_point (positions : Float32Array) (i : nat) (s : rng)
    (result : Float32Array * rng) : Prop :=
  exists X Y Z s',
    result = (Geometry.setPoint positions i X Y Z, s')
    /\ small X /\ small Y /\ small Z /\ suffix s s'.

(** The 3-vector of particle [k] in a flat buffer. *)
Definition vector_at (buf : Float32Array) (k : nat)
  : option (number * number * number) :=
  match buf !! (3 * k)%nat, buf !! (3 * k + 1)%nat, buf !! (3 * k + 2)%nat with
  | Some a, Some b, Some c => Some (a, b, c)
  | _, _, _ => None
  end.

(** A vector of finite coordinates and Euclidean length 1. *)
Definition unit_vector (v : number * number * number) : Prop :=
  exists X Y Z, v = (Fin X, Fin Y, Fin Z) /\ norm X Y Z = 1.

(** The length the direction loop divides by: the norm of the vector, or 1
    when the norm is 0. *)
Definition divisor (x y z : R) : R :=
  if Req_dec_T (sqrt (x * x + y * y + z * z)) 0 then 1
  else sqrt (x * x + y * y + z * z).

(** The direction stored for particle [k] is the vector of its three
    centred draws divided by [divisor]; [s] is the random source as the
    direction loop finds it. *)
Definition direction_stored (s : rng) (rand : Float32Array) (k : nat) : Prop :=
  let x := s (3 * k)%nat - 0.5 in
  let y := s (3 * k + 1)%nat - 0.5 in
  let z := s (3 * k + 2)%nat - 0.5 in
  vector_at rand k =
    Some (Fin (x / divisor x y z), Fin (y / divisor x y z),
          Fin (z / divisor x y z)).

(** Detection fails: there is no detector, or [detectForVideo] throws. *)
Definition fails
    (handLandmarker : option (Vision.HandLandmarker App.HTMLVideoElement))
    (video : App.HTMLVideoElement) (now : number) : Prop :=
  handLandmarker = None
  \/ exists h e,
       handLandmarker = Some h /\ Vision.detectForVideo h video now = Throw e.

(** A frame with a ready video on which detection fails. *)
Definition failing_frame (f : App.Frame) : Prop :=
  exists video,
    App.frame_video f = Some video
    /\ (2 <= App.readyState video)%nat
    /\ fails (App.frame_detector f) video (App.frame_now f).

(** The frame callback run once per render frame, for the elapsed times
    [times], while the gesture mailbox holds [gesture]. *)
Definition frames (shape : ShapeType) (color : string)
    (gesture : Vision.GestureData) (times : list number)
    (refs : ParticleMesh.Refs) : ParticleMesh.Refs :=
  fold_left (fun refs t => ParticleMesh.useFrame shape color gesture t refs)
            times refs.

End Spec.

(* ================================================================= *)
(** ** Concrete inputs *)

Module Examples.

Import Vision.

Definition landmark (px py : R) : NormalizedLandmark :=
  {| x := Fin px; y := Fin py; z := Fin 0 |}.

(** A hand of 21 landmarks, all at one point. *)
Definition point_hand (px py : R) : list NormalizedLandmark :=
  replicate 21 (landmark px py).

(** Two hands with wrists at (0.1, 0.5) and (0.6, 0.5). *)
Definition wrists_apart : HandLandmarkerResult :=
  {| landmarks := Some [point_hand 0.1 0.5; point_hand 0.6 0.5] |}.

(** Wrist at (0.5, 0.8), middle-finger base at (0.5, 0.6), thumb tip at
    (0.4, 0.6) and pinky tip at (0.6, 0.6). *)
Definition open_hand : list NormalizedLandmark :=
  <[ 4%nat := landmark 0.4 0.6 ]>
    (<[ 20%nat := landmark 0.6 0.6 ]>
       (<[ 9%nat := landmark 0.5 0.6 ]> (point_hand 0.5 0.8))).

Definition one_open_hand : HandLandmarkerResult :=
  {| landmarks := Some [open_hand] |}.

(** One hand held below the lower edge of the image: every landmark at
    (0.5, 2). *)
Definition hand_below_frame : HandLandmarkerResult :=
  {| landmarks := Some [point_hand 0.5 2] |}.

Definition three_hands : HandLandmarkerResult :=
  {| landmarks :=
       Some [point_hand 0.2 0.2; point_hand 0.5 0.5; point_hand 0.8 0.8] |}.

Definition no_hands : HandLandmarkerResult :=
  {| landmarks := Some [] |}.

(** The random source whose every draw is 1/2. *)
Definition halves : rng := fun _ => 0.5.

(** A first draw [first], then 1/2 for ever. *)
Definition starting_with (first : R) : rng :=
  fun n => match n with O => first | S _ => 0.5 end.

(** Draws that send a particle of letter D to the arc fill: 0.8 (interior),
    0.6 (arc part), then the angle, radius and depth draws. *)
Definition arc_fill_draws : rng :=
  fun n => match n with
           | 0%nat => 0.8
           | 1%nat => 0.6
           | 2%nat => 0.25
           | _ => 0.5
           end.

(** A fully open gesture with the hands at the top of the image. *)
Definition open_high : GestureData :=
  {| expansion := Fin 1; lift := Fin 0 |}.

(** The scene at rest: expansion uniform 0, no tilt. *)
Definition rest_material : ParticleMesh.ShaderMaterial :=
  {| ParticleMesh.uTime := Fin 0;
     ParticleMesh.uExpansion := Fin 0;
     ParticleMesh.uColor := "#ff007f" |}.

Definition rest_points : ParticleMesh.Points :=
  {| ParticleMesh.rotation_x := Fin 0; ParticleMesh.rotation_y := Fin 0 |}.

(** A video element with data for the current frame. *)
Definition ready_video : App.HTMLVideoElement :=
  {| App.readyState := 4 |}.

(** A detector whose [detectForVideo] throws. *)
Definition failing_detector : HandLandmarker App.HTMLVideoElement :=
  {| detectForVideo := fun _ _ => Throw "detectForVideo failed" |}.

(** A detector that sees no hand. *)
Definition blind_detector : HandLandmarker App.HTMLVideoElement :=
  {| detectForVideo := fun _ _ => Normal no_hands |}.

(** The loop state while two spread hands are tracked. *)
Definition tracking : App.State :=
  {| App.detectedHands := 2;
     App.gestureRef := {| expansion := Fin 1; lift := Fin 0.3 |};
     App.requestRef := Some 7%nat;
     App.frameRequests := 7;
     App.console := [] |}.

End Examples.

(* ================================================================= *)
(** ** Regions of space *)

Module Regions.

(** A case of the generator places a particle in the region [P]: it calls
    [setPoint] once, at the particle's index, with finite coordinates in
    [P] of magnitude at most 64, and leaves a suffix of the random
    source. *)
Definition places (P : R -> R -> R -> Prop) (positions : Float32Array)
    (i : nat) (s : rng) (result : Float32Array * rng) : Prop :=
  exists X Y Z s',
    result = (Geometry.setPoint positions i (Fin X) (Fin Y) (Fin Z), s')
    /\ P X Y Z
    /\ Rabs X <= 64 /\ Rabs Y <= 64 /\ Rabs Z <= 64
    /\ Spec.suffix s s'.

(** Every one of the [count] particles of a flat buffer has finite
    coordinates in the region [P] of its index. *)
Definition every_particle (P : nat -> R -> R -> R -> Prop) (count : nat)
    (buf : Float32Array) : Prop :=
  forall k, (k < count)%nat ->
    exists X Y Z,
      Spec.vector_at buf k = Some (Fin X, Fin Y, Fin Z) /\ P k X Y Z.

Definition origin (X Y Z : R) : Prop := X = 0 /\ Y = 0 /\ Z = 0.

(** The box of the heart: the curve spans 16 by 21 before the scale
    factor of at most 1.1 and the final factor 0.15. *)
Definition heart_box (X Y Z : R) : Prop :=
  Rabs X <= 2.64 /\ Rabs Y <= 3.465 /\ Rabs Z <= 0.6.

(** Saturn: the flat ring between the radii 3 and 5, and the ball of
    radius 1.8. *)
Definition saturn_ring (X Y Z : R) : Prop :=
  9 <= X ^ 2 + Z ^ 2 < 25 /\ Rabs Y <= 0.05.

Definition saturn_body (X Y Z : R) : Prop :=
  Spec.norm X Y Z <= 1.8.

(** The tree: the star around (0, 2.2, 0), and the cone whose radius
    shrinks linearly from 1.8 at the base [Y = -2] to 0 at the apex
    [Y = 2], widened by the spiral offset 0.1. *)
Definition tree_star (X Y Z : R) : Prop :=
  Spec.norm X (Y - 2.2) Z <= 0.3.

Definition tree_cone (X Y Z : R) : Prop :=
  -2 <= Y < 2 /\ X ^ 2 + Z ^ 2 <= ((2 - Y) / 4 * 1.8 + 0.1) ^ 2.

(** The rose: the stem below the bloom, and the bloom. *)
Definition rose_stem (X Y Z : R) : Prop :=
  -4 < Y <= -1.5 /\ Rabs X <= 0.38 /\ Rabs Z <= 0.28.

Definition rose_bloom (X Y Z : R) : Prop :=
  -1.5 <= Y < 1.5 /\ X ^ 2 + Z ^ 2 <= 1.7 ^ 2.

(** The boxes of the two letters. *)
Definition letter_D_box (X Y Z : R) : Prop :=
  -2.6 <= X <= -0.4 /\ Rabs Y <= 1.6 /\ Rabs Z <= 0.25.

Definition letter_L_box (X Y Z : R) : Prop :=
  0.95 <= X <= 2.55 /\ Rabs Y <= 1.55 /\ Rabs Z <= 0.25.

(** The letter of particle [i] among [count]: D for the first half. *)
Definition letter_box (count i : nat) (X Y Z : R) : Prop :=
  if (2 * i <? count)%nat then letter_D_box X Y Z else letter_L_box X Y Z.

End Regions.

(* ================================================================= *)
(** ** components/ParticleMesh.tsx: the shaders *)

(** The GLSL sources of the vertex and the fragment shader.  GLSL floats
    are taken as reals.  Of the vertex shader the displaced position
    [finalPos] and the varying [vAlpha] are modelled; the projection by the
    camera matrices, which the scene graph supplies, is left out. *)
Module Shader.

Record vec3 : Type := {
  vx : R;
  vy : R;
  vz : R
}.

Definition vec3_add (a b : vec3) : vec3 :=
  {| vx := vx a + vx b; vy := vy a + vy b; vz := vz a + vz b |}.

Definition vec3_scale (a : vec3) (k : R) : vec3 :=
  {| vx := vx a * k; vy := vy a * k; vz := vz a * k |}.

Definition rotateY (v : vec3) (angle : R) : vec3 :=
  let s := sin angle in
  let c := cos angle in
  {| vx := vx v * c - vz v * s; vy := vy v; vz := vx v * s + vz v * c |}.

Definition breathing (uTime uExpansion : R) (position : vec3) : R :=
  let ease := uExpansion in
  sin (uTime * 2.0 + vy position * 0.5) * 0.05 * (1.0 - ease).

(** [finalPos] of the vertex shader's [main]. *)
Definition finalPos (uTime uExpansion : R) (position aRandom : vec3) : vec3 :=
  let pos := position in
  let ease := uExpansion in
  let breathing := breathing uTime uExpansion position in
  let spreadRadius := 12.0 in
  let turbulence :=
    vec3_scale
      (vec3_scale
         {| vx := sin (uTime * 5.0 + vz pos);
            vy := cos (uTime * 4.0 + vx pos);
            vz := sin (uTime * 6.0 + vy pos) |} 0.5) ease in
  let explosion := vec3_scale aRandom (ease * spreadRadius) in
  let rotatedPos := rotateY pos (ease * 3.14) in
  vec3_add (vec3_add (vec3_add rotatedPos explosion) turbulence)
           (vec3_scale pos breathing).

(** [vAlpha] of the vertex shader's [main]. *)
Definition vAlpha (uExpansion : R) : R :=
  let ease := uExpansion in
  0.5 + (ease * 0.5).

(** The built-ins [clamp] and [mix]. *)
Definition glsl_clamp (v lo hi : R) : R := Rmin (Rmax v lo) hi.

Definition mix (a b t : R) : R := a * (1 - t) + b * t.

Record vec4 : Type := {
  red : R;
  green : R;
  blue : R;
  alpha : R
}.

(** The fragment shader's [main] at the point coordinate [(px, py)];
    [None] is [discard]. *)
Definition fragment (px py : R) (uColor : vec3) (vAlpha : R) : option vec4 :=
  let cx := px - 0.5 in
  let cy := py - 0.5 in
  let dist := sqrt (cx * cx + cy * cy) in
  if Rlt_dec 0.5 dist then None
  else
    let strength := (0.05 / (dist + 0.05)) - 0.1 in
    let strength := glsl_clamp strength 0.0 1.0 in
    Some {| red := mix (vx uColor) 1.0 (strength * 0.8);
            green := mix (vy uColor) 1.0 (strength * 0.8);
            blue := mix (vz uColor) 1.0 (strength * 0.8);
            alpha := strength * vAlpha |}.

End Shader.

(* ================================================================= *)
(** ** Frames under a changing gesture *)

Module Animation.

(** The frame callback run once per render frame; each frame comes with
    the gesture the mailbox holds at that moment and the elapsed time. *)
Definition frames_with (shape : ShapeType) (color : string)
    (inputs : list (Vision.GestureData * number))
    (refs : ParticleMesh.Refs) : ParticleMesh.Refs :=
  fold_left
    (fun refs input =>
       ParticleMesh.useFrame shape color (fst input) (snd input) refs)
    inputs refs.

(** The gesture of every frame has its expansion and its lift in
    [[0, 1]]. *)
Definition gestures_in_range (inputs : list (Vision.GestureData * number))
  : Prop :=
  Forall (fun input =>
            Spec.in_unit (Vision.expansion (fst input))
            /\ Spec.in_unit (Vision.lift (fst input))) inputs.

(** The smoothed state is in range: the expansion uniform in [[0, 1]] and
    the tilt in [[-0.75, 0.75]]. *)
Definition in_range (refs : ParticleMesh.Refs) : Prop :=
  exists m p e t,
    ParticleMesh.materialRef refs = Some m
    /\ ParticleMesh.meshRef refs = Some p
    /\ ParticleMesh.uExpansion m = Fin e /\ 0 <= e <= 1
    /\ ParticleMesh.rotation_x p = Fin t /\ -0.75 <= t <= 0.75.

End Animation.

(* ================================================================= *)
(** ** App.tsx: the message for a failed start *)

Module Startup.

Open Scope string_scope.

(** Lower case of an ASCII letter; other characters are left alone.  A
    regular expression with the flag [i] and without the flag [u] matches
    an ASCII letter of its pattern with that letter in either case and
    with nothing else. *)
Definition to_lower (c : Ascii.ascii) : Ascii.ascii :=
  let n := Ascii.nat_of_ascii c in
  if (65 <=? n)%nat && (n <=? 90)%nat then Ascii.ascii_of_nat (n + 32)
  else c.

Fixpoint lower (s : string) : string :=
  match s with
  | EmptyString => EmptyString
  | String c s' => String (to_lower c) (lower s')
  end.

(** [word] matches at the start of [s], whatever the case of letters. *)
Fixpoint starts_with_ci (word s : string) : bool :=
  match word with
  | EmptyString => true
  | String a word' =>
      match s with
      | EmptyString => false
      | String b s' =>
          Ascii.eqb (to_lower a) (to_lower b) && starts_with_ci word' s'
      end
  end.

(** [/word/i.test(s)] for a pattern that is a plain word. *)
Fixpoint test_ci (word s : string) : bool :=
  starts_with_ci word s
  || match s with
     | EmptyString => false
     | String _ s' => test_ci word s'
     end.

(** [/wasm|cdn|fetch|network|ERR/i] *)
Definition network_words : list string :=
  ["wasm"; "cdn"; "fetch"; "network"; "ERR"].

(** [/permission|denied/i] *)
Definition permission_words : list string :=
  ["permission"; "denied"].

Definition test_any (words : list string) (s : string) : bool :=
  existsb (fun word => test_ci word s) words.

(** The value caught: its [name] and [message] properties, absent for
    values that have none, and the result of [String(err)]. *)
Record Caught : Type := {
  name : option string;
  message : option string;
  as_string : string
}.

Definition network_message : string :=
  "网络/加载超时：MediaPipe 模块无法加载（CDN 不可达）。可尝试本地安装依赖或检查网络。".

Definition camera_message : string :=
  "相机访问被拒绝。请允许摄像头权限并刷新页面。".

(** The argument of [setError] in the [catch] block of
    [startDetection]. *)
Definition error_message (err : Caught) : string :=
  let msg :=
    match message err with
    | Some m => m
    | None => as_string err
    end in
  if String.eqb msg "init_timeout" || test_any network_words msg
  then network_message
  else if match name err with
          | Some n => String.eqb n "NotAllowedError"
          | None => false
          end
          || test_any permission_words msg
  then camera_message
  else "初始化失败：" ++ msg.

Close Scope string_scope.

End Startup.

(* ================================================================= *)
(** ** services/vision.ts: initialisation *)

Module Init.

Open Scope string_scope.

Record Options : Type := {
  modelAssetPath : string;
  delegate : string;
  runningMode : string;
  numHands : nat
}.

(** The two asynchronous calls into the library; each returns or
    throws. *)
Record Library (Fileset Detector : Type) : Type := {
  forVisionTasks : string -> completion Fileset;
  createFromOptions : Fileset -> Options -> completion Detector
}.

Arguments forVisionTasks {Fileset Detector} _ _.
Arguments createFromOptions {Fileset Detector} _ _ _.

(** The outcome of a call, the module variable [handLandmarker]
    afterwards, and the number of calls made into the library. *)
Record Outcome (Detector : Type) : Type := {
  returned : completion Detector;
  handLandmarker : option Detector;
  library_calls : nat
}.

Arguments returned {Detector} _.
Arguments handLandmarker {Detector} _.
Arguments library_calls {Detector} _.

Definition initializeHandDetection {Fileset Detector : Type}
    (library : Library Fileset Detector) (base : string)
    (current : option Detector) : Outcome Detector :=
  match current with
  | Some h =>
      {| returned := Normal h; handLandmarker := current;
         library_calls := 0 |}
  | None =>
      let wasmUrl := base ++ "mediapipe/wasm" in
      match forVisionTasks library wasmUrl with
      | Throw e =>
          {| returned := Throw e; handLandmarker := None;
             library_calls := 1 |}
      | Normal vision =>
          match createFromOptions library vision
                  {| modelAssetPath :=
                       base ++ "mediapipe/models/hand_landmarker.task";
                     delegate := "GPU";
                     runningMode := "VIDEO";
                     numHands := 2 |} with
          | Throw e =>
              {| returned := Throw e; handLandmarker := None;
                 library_calls := 2 |}
          | Normal h =>
              {| returned := Normal h; handLandmarker := Some h;
                 library_calls := 2 |}
          end
      end
  end.

Close Scope string_scope.

End Init.

(* ================================================================= *)
(** ** The script that fetches the model *)

(** [download] and the loop over the mirrors in [main].  The modules
    [https] and [fs] are not part of the sources: what comes of a request,
    and of the transfer of a body to the file, is left to the environment,
    through [server] and the [transfer] of a response.  The directories
    made by [ensureDir] are not recorded. *)

From Stdlib Require DecimalString.

Module Provision.

Open Scope string_scope.

(** A number printed in decimal, as string concatenation does. *)
Definition decimal (n : nat) : string :=
  DecimalString.NilZero.string_of_uint (Nat.to_uint n).

(** What becomes of the body of a response once [download] has decided to
    save it, through [ensureDir], [fs.createWriteStream], [res.pipe] and
    the 'finish' event of the file.

    - [Finish]: the body is written whole and the file emits 'finish'.
    - [Break kept error]: the writing stops before the end.  The file holds
      the first [kept] bytes of the body, or was not made at all ([None]:
      [ensureDir] threw or the file could not be opened).  [error] is the
      'error' event of the request if it emits one; [download] listens to
      nothing else, so without it nobody settles the promise. *)
Inductive Transfer : Type :=
| Finish
| Break (kept : option nat) (error : option string).

(** What [https.get] hands to its callback, and how the transfer of the
    body will go if it is saved. *)
Record Response : Type := {
  statusCode : nat;
  location : option string;
  body : string;
  transfer : Transfer
}.

(** What comes of [https.get(u, callback)]: the callback is called with a
    response, the request emits 'error', or the call itself throws (a URL
    that cannot be parsed, or whose protocol is not https). *)
Inductive Reply : Type :=
| Answered (res : Response)
| ErrorEvent (e : string)
| Thrown (e : string).

(** The promise of [download]: resolved, rejected, or left pending because
    nothing ever calls [resolve] or [reject]. *)
Inductive Settled : Type :=
| Resolved (dest : string)
| Rejected (message : string)
| Pending.

(** A run of [download]: what became of the promise, the URLs of the
    requests made, in order, and the file written with its content, if
    any. *)
Record Download : Type := {
  settled : Settled;
  requests : list string;
  written : option (string * string)
}.

(** The header is present and not empty. *)
Definition has_location (res : Response) : option string :=
  match location res with
  | Some (String c l) => Some (String c l)
  | _ => None
  end.

(** The test of the first [if] of the callback: the location to follow. *)
Definition redirect (res : Response) : option string :=
  if (300 <=? statusCode res)%nat && (statusCode res <? 400)%nat
  then has_location res else None.

Section Download.

(** The world outside: what comes of a request to each URL. *)
Variable server : string -> Reply.

(** [new URL(location, u).toString()], which throws on a location that
    cannot be resolved. *)
Variable new_URL : string -> string -> completion string.

Variable dest : string.

(** [next] in the callback. *)
Definition next_url (loc u : string) : completion string :=
  if String.prefix "http" loc then Normal loc else new_URL loc u.

(** What the callback does with a response that is not a redirect. *)
Definition save (u : string) (res : Response) : Download :=
  if negb (statusCode res =? 200)%nat
  then {| settled := Rejected ("HTTP " ++ decimal (statusCode res)
                               ++ " for " ++ u);
          requests := [u]; written := None |}
  else
    match transfer res with
    | Finish =>
        {| settled := Resolved dest; requests := [u];
           written := Some (dest, body res) |}
    | Break kept error =>
        {| settled := match error with
                      | Some e => Rejected e
                      | None => Pending
                      end;
           requests := [u];
           written :=
             match kept with
             | Some n => Some (dest, String.substring 0 n (body res))
             | None => None
             end |}
    end.

(** [doReq]; [fuel] bounds the number of requests.  The result is [Throw]
    when [https.get] throws, so that the exception leaves [doReq] itself;
    an exception inside the callback of a request is caught by nobody and
    leaves the promise pending. *)
Fixpoint doReq (fuel : nat) (u : string) (redirects : nat)
  : option (completion Download) :=
  match fuel with
  | O => None
  | S fuel' =>
      match server u with
      | Thrown e => Some (Throw e)
      | ErrorEvent e =>
          Some (Normal {| settled := Rejected e; requests := [u];
                          written := None |})
      | Answered res =>
          match redirect res with
          | Some loc =>
              if (5 <? redirects)%nat
              then Some (Normal
                     {| settled := Rejected ("Too many redirects for " ++ u);
                        requests := [u]; written := None |})
              else
                match next_url loc u with
                | Throw _ =>
                    Some (Normal {| settled := Pending; requests := [u];
                                    written := None |})
                | Normal next =>
                    match doReq fuel' next (redirects + 1) with
                    | Some (Normal d) =>
                        Some (Normal {| settled := settled d;
                                        requests := u :: requests d;
                                        written := written d |})
                    | Some (Throw _) =>
                        Some (Normal {| settled := Pending; requests := [u];
                                        written := None |})
                    | None => None
                    end
                end
          | None => Some (Normal (save u res))
          end
      end
  end.

(** [download(url, dest)]: seven requests are always enough.  An exception
    of the first [doReq] is thrown inside the executor of the promise,
    which rejects with it. *)
Definition download (url : string) : option Download :=
  match doReq 7 url 0 with
  | Some (Normal d) => Some d
  | Some (Throw e) =>
      Some {| settled := Rejected e; requests := []; written := None |}
  | None => None
  end.

(** The loop over the mirrors: it finishes, with [ok] and the URLs whose
    download was attempted, in order, or it is stuck awaiting a promise
    that is never settled. *)
Inductive Attempts : Type :=
| Finished (ok : bool) (tried : list string)
| Stuck (tried : list string).

Fixpoint try_sources (sources : list string) : Attempts :=
  match sources with
  | [] => Finished false []
  | url :: rest =>
      if String.eqb url "" then try_sources rest
      else
        match download url with
        | Some {| settled := Resolved _ |} => Finished true [url]
        | Some {| settled := Rejected _ |} =>
            match try_sources rest with
            | Finished ok tried => Finished ok (url :: tried)
            | Stuck tried => Stuck (url :: tried)
            end
        | _ => Stuck [url]
        end
  end.

(** The download of [url] succeeds. *)
Definition succeeds (url : string) : Prop :=
  exists d, download url = Some d /\ settled d = Resolved dest.

(** The download of [url] is never settled. *)
Definition hangs (url : string) : Prop :=
  exists d, download url = Some d /\ settled d = Pending.

(** A response with status 200 whose transfer breaks without an error
    event. *)
Definition stalled (res : Response) : Prop :=
  redirect res = None /\ statusCode res = 200%nat
  /\ exists kept, transfer res = Break kept None.

(** A redirect received for [u] that cannot be followed: [new URL] throws
    on its location, or [https.get] throws on the URL it leads to. *)
Definition unfollowable (u : string) (res : Response) : Prop :=
  exists loc,
    redirect res = Some loc
    /\ match next_url loc u with
       | Normal next => exists e, server next = Thrown e
       | Throw _ => True
       end.

End Download.

(** [sources] of [main]; [envUrl] is the trimmed value of
    [MEDIAPIPE_MODEL_URL], if set. *)
Definition sources (envUrl : option string) : list string :=
  [ match envUrl with Some u => u | None => "" end;
    "https://storage.googleapis.com/mediapipe-models/hand_landmarker/hand_landmarker/float16/1/hand_landmarker.task";
    "https://aistudiocdn.com/mediapipe-models/hand_landmarker/hand_landmarker/float16/1/hand_landmarker.task" ].

(** A server that answers every request with a redirect. *)
Definition redirecting (server : string -> Reply) : Prop :=
  forall u, exists res loc,
    server u = Answered res
    /\ (300 <= statusCode res < 400)%nat
    /\ has_location res = Some loc.

(** Every location can be resolved. *)
Definition resolving (new_URL : string -> string -> completion string)
  : Prop :=
  forall loc u, exists v, new_URL loc u = Normal v.

Close Scope string_scope.

End Provision.

(* ================================================================= *)
(** ** More concrete inputs *)

Module Samples.

Import Vision.

(** The landmark at [(px, py)] moved by the scaling of factor [c] about
    the centre [(a, b)]. *)
Definition scaled_landmark (a b c px py : R) : NormalizedLandmark :=
  Examples.landmark (a + c * (px - a)) (b + c * (py - b)).

(** [Examples.open_hand] twice as large, scaled about its wrist. *)
Definition large_open_hand : list NormalizedLandmark :=
  <[ 4%nat := scaled_landmark 0.5 0.8 2 0.4 0.6 ]>
    (<[ 20%nat := scaled_landmark 0.5 0.8 2 0.6 0.6 ]>
       (<[ 9%nat := scaled_landmark 0.5 0.8 2 0.5 0.6 ]>
          (replicate 21 (scaled_landmark 0.5 0.8 2 0.5 0.8)))).

(** A result with one hand of five landmarks only. *)
Definition short_hand : HandLandmarkerResult :=
  {| landmarks := Some [replicate 5 (Examples.landmark 0.5 0.5)] |}.

(** A detector that reports the short hand. *)
Definition short_hand_detector : HandLandmarker App.HTMLVideoElement :=
  {| detectForVideo := fun _ _ => Normal short_hand |}.

(** A permission failure whose message mentions an error. *)
Definition permission_error : Startup.Caught :=
  {| Startup.name := Some "NotAllowedError"%string;
     Startup.message := Some "Permission Error: camera blocked"%string;
     Startup.as_string :=
       "NotAllowedError: Permission Error: camera blocked"%string |}.

End Samples.

(* ================================================================= *)
(** ** Concrete networks *)

Module Networks.

Import Provision.

(** Every request fails with an error event. *)
Definition unreachable : string -> Reply :=
  fun _ => ErrorEvent "ENOTFOUND"%string.

(** Every request is answered with the model, which arrives whole. *)
Definition serving : string -> Reply :=
  fun _ => Answered {| statusCode := 200; location := None;
                       body := "model"%string; transfer := Finish |}.

(** Every request is redirected to a relative location. *)
Definition looping : string -> Reply :=
  fun _ => Answered {| statusCode := 302; location := Some "/next"%string;
                       body := ""%string; transfer := Finish |}.

(** Requests over https are redirected to a plain http address, which
    [https.get] refuses. *)
Definition downgrading : string -> Reply :=
  fun u =>
    if String.prefix "https://" u
    then Answered {| statusCode := 301;
                     location := Some "http://a/m"%string;
                     body := ""%string; transfer := Finish |}
    else Thrown "ERR_INVALID_PROTOCOL"%string.

(** The connection is lost after two bytes of the model, without an error
    event. *)
Definition dropping : string -> Reply :=
  fun _ => Answered {| statusCode := 200; location := None;
                       body := "model"%string;
                       transfer := Break (Some 2%nat) None |}.

(** Relative locations are resolved by appending them. *)
Definition append_url (loc u : string) : completion string :=
  Normal (u ++ loc)%string.

End Networks.

(* ================================================================= *)
(** ** Numbers: reduction on finite operands *)

Section NumberFacts.

Lemma lt_Fin_true p q : p < q -> lt (Fin p) (Fin q) = true.
Proof. intros H. unfold lt. destruct (Rlt_dec p q); [reflexivity | contradiction]. Qed.

Lemma lt_Fin_false p q : q <= p -> lt (Fin p) (Fin q) = false.
Proof. intros H. unfold lt. destruct (Rlt_dec p q); [lra | reflexivity]. Qed.

Lemma lt_Fin_inv p q b :
  lt (Fin p) (Fin q) = b -> if b then p < q else q <= p.
Proof.
  unfold lt. destruct (Rlt_dec p q); intros <-; lra.
Qed.

Lemma is_zero_false r : r <> 0 -> is_zero r = false.
Proof. intros H. unfold is_zero. destruct (Req_dec_T r 0); [contradiction | reflexivity]. Qed.

Lemma is_zero_true r : r = 0 -> is_zero r = true.
Proof. intros H. unfold is_zero. destruct (Req_dec_T r 0); [reflexivity | contradiction]. Qed.

Lemma div_Fin p q : q <> 0 -> div (Fin p) (Fin q) = Fin (p / q).
Proof. intros H. unfold div. now rewrite is_zero_false. Qed.

Lemma Math_sqrt_Fin p : 0 <= p -> Math_sqrt (Fin p) = Fin (sqrt p).
Proof. intros H. unfold Math_sqrt. destruct (Rlt_dec p 0); [lra | reflexivity]. Qed.

Lemma or_else_Fin p q :
  or_else (Fin p) (Fin q) = Fin (if Req_dec_T p 0 then q else p).
Proof.
  unfold or_else, truthy, is_zero. now destruct (Req_dec_T p 0).
Qed.

Lemma Math_acos_Fin p : -1 <= p <= 1 -> Math_acos (Fin p) = Fin (acos p).
Proof.
  intros H. unfold Math_acos.
  destruct (Rlt_dec p (-1)); [lra |]. destruct (Rlt_dec 1 p); [lra | reflexivity].
Qed.

Lemma clamp_min_max v : Rmin (Rmax v 0) 1 = Spec.clamp v 0 1.
Proof.
  unfold Spec.clamp, Rmin, Rmax.
  destruct (Rle_dec v 0), (Rlt_dec v 0), (Rlt_dec 1 v);
    destruct (Rle_dec _ 1); lra.
Qed.

Lemma clamp_unit v : 0 <= Spec.clamp v 0 1 <= 1.
Proof.
  unfold Spec.clamp. destruct (Rlt_dec v 0), (Rlt_dec 1 v); lra.
Qed.

Lemma sum_squares_nonneg a b : 0 <= a * a + b * b.
Proof. nra. Qed.

End NumberFacts.

(* ================================================================= *)
(** ** The gesture calculator *)

Section Gesture.

Import Vision.

(** The result for two hands whose wrists have finite coordinates. *)
Lemma two_hands_value (w1 w2 : NormalizedLandmark)
    (rest1 rest2 : list NormalizedLandmark) (x1 y1 x2 y2 : R) :
  x w1 = Fin x1 -> y w1 = Fin y1 -> x w2 = Fin x2 -> y w2 = Fin y2 ->
  calculateGestureData {| landmarks := Some [w1 :: rest1; w2 :: rest2] |} =
  Normal {| expansion :=
              Fin (Spec.clamp
                     (Spec.rescale (Spec.distance x1 y1 x2 y2) 0.15 0.50) 0 1);
            lift := Fin ((y1 + y2) / 2) |}.
Proof.
  intros Hx1 Hy1 Hx2 Hy2.
  unfold calculateGestureData. cbn [landmarks length Nat.eqb element bind lookup list_lookup].
  rewrite Hx1, Hy1, Hx2, Hy2. cbn [sub mul add].
  rewrite Math_sqrt_Fin by apply sum_squares_nonneg.
  cbn [sub]. rewrite !div_Fin by lra.
  cbn [Math_max Math_min]. rewrite clamp_min_max.
  unfold Spec.rescale, Spec.distance.
  replace ((x1 - x2) ^ 2 + (y1 - y2) ^ 2)
    with ((x1 - x2) * (x1 - x2) + (y1 - y2) * (y1 - y2)) by ring.
  reflexivity.
Qed.

End Gesture.

Section GestureClaims.

Import Vision.

(** The result for one hand whose four landmarks read by the calculator
    have finite coordinates. *)
Lemma one_hand_value (hand : list NormalizedLandmark)
    (thumbTip pinkyTip wrist middleMCP : NormalizedLandmark)
    (tx ty px py wx wy mx my : R) :
  hand !! 4%nat = Some thumbTip -> hand !! 20%nat = Some pinkyTip ->
  hand !! 0%nat = Some wrist -> hand !! 9%nat = Some middleMCP ->
  x thumbTip = Fin tx -> y thumbTip = Fin ty ->
  x pinkyTip = Fin px -> y pinkyTip = Fin py ->
  x wrist = Fin wx -> y wrist = Fin wy ->
  x middleMCP = Fin mx -> y middleMCP = Fin my ->
  calculateGestureData {| landmarks := Some [hand] |} =
  Normal {| expansion :=
              Fin (Spec.clamp
                     (Spec.rescale
                        (Spec.distance tx ty px py
                         / Spec.guarded (Spec.distance mx my wx wy))
                        0.5 1.2) 0 1);
            lift := Fin wy |}.
Proof.
  intros H4 H20 H0 H9 Htx Hty Hpx Hpy Hwx Hwy Hmx Hmy.
  unfold calculateGestureData.
  cbn [landmarks length Nat.eqb element bind lookup list_lookup].
  unfold element. rewrite H4, H20, H0, H9. cbn [bind].
  rewrite Htx, Hty, Hpx, Hpy, Hwx, Hwy, Hmx, Hmy. cbn [sub mul add].
  rewrite !Math_sqrt_Fin by apply sum_squares_nonneg.
  rewrite or_else_Fin.
  assert (Hg : (if Req_dec_T (sqrt ((mx - wx) * (mx - wx) + (my - wy) * (my - wy))) 0
                then 0.1
                else sqrt ((mx - wx) * (mx - wx) + (my - wy) * (my - wy))) <> 0).
  { destruct (Req_dec_T _ 0); [lra | assumption]. }
  rewrite div_Fin by exact Hg.
  cbn [sub]. rewrite div_Fin by lra.
  cbn [Math_max Math_min]. rewrite clamp_min_max.
  unfold Spec.rescale, Spec.distance, Spec.guarded.
  replace ((tx - px) ^ 2 + (ty - py) ^ 2)
    with ((tx - px) * (tx - px) + (ty - py) * (ty - py)) by ring.
  replace ((mx - wx) ^ 2 + (my - wy) ^ 2)
    with ((mx - wx) * (mx - wx) + (my - wy) * (my - wy)) by ring.
  reflexivity.
Qed.

Lemma distance_same x1 y1 : Spec.distance x1 y1 x1 y1 = 0.
Proof.
  unfold Spec.distance.
  replace ((x1 - x1) ^ 2 + (y1 - y1) ^ 2) with 0 by ring. apply sqrt_0.
Qed.

Lemma guarded_nonzero h : Spec.guarded h <> 0.
Proof. unfold Spec.guarded. destruct (Req_dec_T h 0); [lra | assumption]. Qed.

Lemma clamp_low v : v <= 0 -> Spec.clamp v 0 1 = 0.
Proof. intros H. unfold Spec.clamp. destruct (Rlt_dec v 0), (Rlt_dec 1 v); lra. Qed.

Lemma clamp_high v : 1 <= v -> Spec.clamp v 0 1 = 1.
Proof. intros H. unfold Spec.clamp. destruct (Rlt_dec v 0), (Rlt_dec 1 v); lra. Qed.

(** C3. With exactly two hands, expansion is the inter-wrist distance
    rescaled from [0.15, 0.50] to [0, 1] and clamped, and lift is the mean
    of the two wrists' vertical coordinates; coincident wrists give
    expansion 0 and wrists at distance 0.5 or more give expansion 1. *)
Theorem calculateGestureData_two_hands (w1 w2 : NormalizedLandmark)
    (rest1 rest2 : list NormalizedLandmark) (x1 y1 x2 y2 : R) :
  x w1 = Fin x1 -> y w1 = Fin y1 -> x w2 = Fin x2 -> y w2 = Fin y2 ->
  let d := Spec.distance x1 y1 x2 y2 in
  let e := Spec.clamp ((d - 0.15) / (0.50 - 0.15)) 0 1 in
  calculateGestureData {| landmarks := Some [w1 :: rest1; w2 :: rest2] |} =
    Normal {| expansion := Fin e; lift := Fin ((y1 + y2) / 2) |}
  /\ (x1 = x2 -> y1 = y2 -> e = 0)
  /\ (0.5 <= d -> e = 1).
Proof.
  intros Hx1 Hy1 Hx2 Hy2 d e. split; [| split].
  - exact (two_hands_value w1 w2 rest1 rest2 x1 y1 x2 y2 Hx1 Hy1 Hx2 Hy2).
  - intros -> ->. subst e d. rewrite distance_same. apply clamp_low. lra.
  - intros Hd. subst e. apply clamp_high.
    apply Rmult_le_reg_r with (0.50 - 0.15); [lra |].
    unfold Rdiv. rewrite Rmult_assoc, Rinv_l by lra. lra.
Qed.

(** C4. With exactly one hand, expansion is the thumb-tip-to-pinky-tip
    distance divided by the wrist-to-middle-finger-base distance (0.1 when
    that distance is 0), rescaled from [0.5, 1.2] to [0, 1] and clamped, and
    lift is the wrist's vertical coordinate; coincident thumb and pinky tips
    give expansion 0 whatever the hand size. *)
Theorem calculateGestureData_one_hand (hand : list NormalizedLandmark)
    (thumbTip pinkyTip wrist middleMCP : NormalizedLandmark)
    (tx ty px py wx wy mx my : R) :
  hand !! 4%nat = Some thumbTip -> hand !! 20%nat = Some pinkyTip ->
  hand !! 0%nat = Some wrist -> hand !! 9%nat = Some middleMCP ->
  x thumbTip = Fin tx -> y thumbTip = Fin ty ->
  x pinkyTip = Fin px -> y pinkyTip = Fin py ->
  x wrist = Fin wx -> y wrist = Fin wy ->
  x middleMCP = Fin mx -> y middleMCP = Fin my ->
  let s := Spec.distance tx ty px py in
  let h := Spec.distance mx my wx wy in
  let h' := if Req_dec_T h 0 then 0.1 else h in
  let e := Spec.clamp ((s / h' - 0.5) / (1.2 - 0.5)) 0 1 in
  calculateGestureData {| landmarks := Some [hand] |} =
    Normal {| expansion := Fin e; lift := Fin wy |}
  /\ h' <> 0
  /\ (tx = px -> ty = py -> e = 0).
Proof.
  intros H4 H20 H0 H9 Htx Hty Hpx Hpy Hwx Hwy Hmx Hmy s h h' e.
  split; [| split].
  - exact (one_hand_value hand thumbTip pinkyTip wrist middleMCP
             tx ty px py wx wy mx my
             H4 H20 H0 H9 Htx Hty Hpx Hpy Hwx Hwy Hmx Hmy).
  - apply guarded_nonzero.
  - intros -> ->. subst e s. rewrite distance_same. apply clamp_low.
    unfold Rdiv at 2. rewrite Rmult_0_l.
    apply Rmult_le_reg_r with (1.2 - 0.5); [lra |].
    unfold Rdiv. rewrite Rmult_assoc, Rinv_l by lra. lra.
Qed.

(** C6. A result whose number of hands is neither 1 nor 2 (none, or three
    and more) yields exactly expansion 0 and lift 0.5. *)
Theorem calculateGestureData_other_counts (result : HandLandmarkerResult) :
  Spec.hand_count result <> 1%nat -> Spec.hand_count result <> 2%nat ->
  calculateGestureData result =
    Normal {| expansion := Fin 0; lift := Fin 0.5 |}.
Proof.
  unfold Spec.hand_count, calculateGestureData.
  destruct (landmarks result) as [hands |]; [| reflexivity].
  destruct hands as [| h0 [| h1 [| h2 hands]]]; cbn; intros H1 H2;
    try reflexivity; congruence.
Qed.

End GestureClaims.

Section GestureRange.

Import Vision.

Lemma in_unit_clamp v : Spec.in_unit (Fin (Spec.clamp v 0 1)).
Proof. exists (Spec.clamp v 0 1). split; [reflexivity | apply clamp_unit]. Qed.

Lemma in_unit_default : Spec.in_unit (Fin 0) /\ Spec.in_unit (Fin 0.5).
Proof. split; eexists; (split; [reflexivity | lra]). Qed.

Lemma moderate_landmark_lookup (hand : list NormalizedLandmark) i p :
  Forall Spec.moderate_landmark hand -> hand !! i = Some p ->
  exists px py, x p = Fin px /\ y p = Fin py.
Proof.
  intros Hall Hi.
  destruct (Forall_lookup_1 _ _ _ _ Hall Hi) as [(px & Hx & _) (py & Hy & _)].
  now exists px, py.
Qed.

Lemma element_Normal {A : Type} (arr : list A) i a :
  element arr i = Normal a -> arr !! i = Some a.
Proof.
  unfold element. destruct (arr !! i); [| discriminate].
  now intros [= ->].
Qed.

(** The clamp bounds every number, the infinities included, and passes NaN
    on. *)
Lemma clamp_number raw :
  Math_min (Math_max raw (Fin 0)) (Fin 1) = NaN
  \/ Spec.in_unit (Math_min (Math_max raw (Fin 0)) (Fin 1)).
Proof.
  destruct raw as [r | [|] |]; cbn [Math_max Math_min].
  - right. rewrite clamp_min_max. apply in_unit_clamp.
  - right. exists (Rmin 0 1). split; [reflexivity |].
    unfold Rmin. destruct (Rle_dec 0 1); lra.
  - right. exists 1. split; [reflexivity | lra].
  - now left.
Qed.

Lemma expansion_range_any (result : HandLandmarkerResult) (g : GestureData) :
  calculateGestureData result = Normal g ->
  expansion g = NaN \/ Spec.in_unit (expansion g).
Proof.
  assert (Hdefault : Spec.in_unit (Fin 0))
    by (exists 0; split; [reflexivity | lra]).
  unfold calculateGestureData.
  destruct (landmarks result) as [hands |]; [| intros [= <-]; now right].
  destruct hands as [| h0 [| h1 [| h2 hands]]];
    cbn [length Nat.eqb element bind lookup list_lookup].
  - intros [= <-]. now right.
  - destruct (element h0 4); [| discriminate].
    destruct (element h0 20); [| discriminate].
    destruct (element h0 0); [| discriminate].
    destruct (element h0 9); [| discriminate].
    cbn [bind]. intros [= <-]. cbn [expansion]. apply clamp_number.
  - destruct (element h0 0); [| discriminate].
    destruct (element h1 0); [| discriminate].
    cbn [bind]. intros [= <-]. cbn [expansion]. apply clamp_number.
  - intros [= <-]. now right.
Qed.

(** The expansion at moderate coordinates is a number of [0, 1]. *)
Lemma expansion_moderate (result : HandLandmarkerResult) (g : GestureData) :
  Spec.moderate_result result ->
  calculateGestureData result = Normal g ->
  Spec.in_unit (expansion g).
Proof.
  unfold Spec.moderate_result.
  destruct result as [[hands |]]; cbn [landmarks].
  2:{ intros _ [= <-]. apply in_unit_default. }
  destruct hands as [| h0 [| h1 [| h2 hands]]].
  - intros _ [= <-]. apply in_unit_default.
  - (* one hand *)
    intros Hfin Hcalc.
    apply Forall_cons in Hfin as [Hfin0 _].
    pose proof Hcalc as Hc.
    unfold calculateGestureData in Hc.
    cbn [landmarks length Nat.eqb] in Hc.
    change (element [h0] 0) with (Normal (A := list NormalizedLandmark) h0) in Hc.
    cbn [bind] in Hc.
    destruct (element h0 4) as [thumbTip |] eqn:H4; [| discriminate].
    destruct (element h0 20) as [pinkyTip |] eqn:H20; [| discriminate].
    destruct (element h0 0) as [wrist |] eqn:H0; [| discriminate].
    destruct (element h0 9) as [middleMCP |] eqn:H9; [| discriminate].
    clear Hc.
    apply element_Normal in H4, H20, H0, H9.
    destruct (moderate_landmark_lookup _ _ _ Hfin0 H4) as (tx & ty & Htx & Hty).
    destruct (moderate_landmark_lookup _ _ _ Hfin0 H20) as (px & py & Hpx & Hpy).
    destruct (moderate_landmark_lookup _ _ _ Hfin0 H0) as (wx & wy & Hwx & Hwy).
    destruct (moderate_landmark_lookup _ _ _ Hfin0 H9) as (mx & my & Hmx & Hmy).
    rewrite (one_hand_value h0 thumbTip pinkyTip wrist middleMCP
               tx ty px py wx wy mx my) in Hcalc by assumption.
    injection Hcalc as <-. cbn [expansion]. apply in_unit_clamp.
  - (* two hands *)
    intros Hfin Hcalc.
    apply Forall_cons in Hfin as [Hfin0 Hfin].
    apply Forall_cons in Hfin as [Hfin1 _].
    destruct h0 as [| w1 rest1]; [discriminate |].
    destruct h1 as [| w2 rest2]; [discriminate |].
    destruct (moderate_landmark_lookup (w1 :: rest1) 0 w1 Hfin0 eq_refl)
      as (x1 & y1 & Hx1 & Hy1).
    destruct (moderate_landmark_lookup (w2 :: rest2) 0 w2 Hfin1 eq_refl)
      as (x2 & y2 & Hx2 & Hy2).
    rewrite (two_hands_value w1 w2 rest1 rest2 x1 y1 x2 y2) in Hcalc
      by assumption.
    injection Hcalc as <-. cbn [expansion]. apply in_unit_clamp.
  - intros _ [= <-]. apply in_unit_default.
Qed.

(** The lift is the vertical coordinate of the wrist, the mean of those of
    the two wrists, or the default: it is in [0, 1] when the wrists are. *)
Lemma lift_in_frame (result : HandLandmarkerResult) (g : GestureData) :
  Spec.wrists_in_frame result ->
  calculateGestureData result = Normal g ->
  Spec.in_unit (lift g).
Proof.
  unfold Spec.wrists_in_frame, calculateGestureData.
  destruct (landmarks result) as [hands |];
    [| intros _ [= <-]; apply in_unit_default].
  destruct hands as [| h0 [| h1 [| h2 hands]]];
    cbn [length Nat.eqb element bind lookup list_lookup].
  - intros _ [= <-]. apply in_unit_default.
  - intros Hw. apply Forall_cons in Hw as [Hw _].
    destruct (element h0 4); [| discriminate].
    destruct (element h0 20); [| discriminate].
    unfold element.
    destruct (h0 !! 0%nat) as [wrist |]; [| discriminate].
    destruct (h0 !! 9%nat); [| discriminate].
    cbn [bind]. intros [= <-]. exact Hw.
  - intros Hw. apply Forall_cons in Hw as [Hw1 Hw].
    apply Forall_cons in Hw as [Hw2 _].
    unfold element.
    destruct (h0 !! 0%nat) as [w1 |]; [| discriminate].
    destruct (h1 !! 0%nat) as [w2 |]; [| discriminate].
    cbn [bind]. intros [= <-]. cbn [lift].
    destruct Hw1 as (y1 & -> & Hy1). destruct Hw2 as (y2 & -> & Hy2).
    cbn [add div]. rewrite is_zero_false by lra.
    exists ((y1 + y2) / 2). split; [reflexivity | lra].
  - intros _ [= <-]. apply in_unit_default.
Qed.

(** C2, amended.  Whatever numbers the landmarks hold, the expansion of the
    result is NaN or lies in [0, 1]: the clamp bounds every number and
    passes NaN on.  At moderate coordinates (finite, of magnitude at most
    10^150, so that no square overflows) it lies in [0, 1].  Lift is not
    clamped: it lies in [0, 1] when the wrist of every hand is vertically
    inside the image. *)
Theorem calculateGestureData_range (result : HandLandmarkerResult) (g : GestureData) :
  calculateGestureData result = Normal g ->
  (expansion g = NaN \/ Spec.in_unit (expansion g))
  /\ (Spec.moderate_result result -> Spec.in_unit (expansion g))
  /\ (Spec.wrists_in_frame result -> Spec.in_unit (lift g)).
Proof.
  intros Hcalc. split; [| split].
  - exact (expansion_range_any result g Hcalc).
  - intros Hmoderate. exact (expansion_moderate result g Hmoderate Hcalc).
  - intros Hframe. exact (lift_in_frame result g Hframe Hcalc).
Qed.

End GestureRange.

Section GestureExamples.

Import Vision Examples.

Lemma moderate_unit r : Rabs r <= 1 -> Spec.moderate (Fin r).
Proof.
  intros H. exists r. split; [reflexivity |].
  apply Rle_trans with 1; [exact H |]. apply pow_R1_Rle. lra.
Qed.

Lemma point_hand_moderate px py :
  Rabs px <= 1 -> Rabs py <= 1 ->
  Forall Spec.moderate_landmark (point_hand px py).
Proof.
  intros Hx Hy. apply Forall_replicate. split; now apply moderate_unit.
Qed.

Lemma distance_horizontal x1 x2 y0 :
  x1 <= x2 -> Spec.distance x1 y0 x2 y0 = x2 - x1.
Proof.
  intros H. unfold Spec.distance.
  replace ((x1 - x2) ^ 2 + (y0 - y0) ^ 2) with ((x2 - x1) * (x2 - x1)) by ring.
  apply sqrt_square. lra.
Qed.

Lemma distance_vertical x0 y1 y2 :
  y1 <= y2 -> Spec.distance x0 y1 x0 y2 = y2 - y1.
Proof.
  intros H. unfold Spec.distance.
  replace ((x0 - x0) ^ 2 + (y1 - y2) ^ 2) with ((y2 - y1) * (y2 - y1)) by ring.
  apply sqrt_square. lra.
Qed.

(** The hand below the frame: expansion 0 and lift 2. *)
Lemma hand_below_frame_value :
  calculateGestureData hand_below_frame =
  Normal {| expansion := Fin 0; lift := Fin 2 |}.
Proof.
  unfold hand_below_frame.
  rewrite (one_hand_value (point_hand 0.5 2)
             (landmark 0.5 2) (landmark 0.5 2) (landmark 0.5 2) (landmark 0.5 2)
             0.5 2 0.5 2 0.5 2 0.5 2) by reflexivity.
  rewrite distance_same, clamp_low; [reflexivity |].
  unfold Spec.rescale, Spec.guarded.
  destruct (Req_dec_T 0 0); lra.
Qed.

(** C2, counterexample.  One hand with every landmark at (0.5, 2): the
    calculator returns lift 2, which is outside [0, 1]. *)
Lemma calculateGestureData_lift_unclamped :
  calculateGestureData hand_below_frame =
    Normal {| expansion := Fin 0; lift := Fin 2 |}
  /\ ~ (Spec.in_unit (expansion {| expansion := Fin 0; lift := Fin 2 |})
        /\ Spec.in_unit (lift {| expansion := Fin 0; lift := Fin 2 |})).
Proof.
  split; [exact hand_below_frame_value |].
  cbn [expansion lift]. intros [_ (r & Hr & Hr01)].
  injection Hr as <-. lra.
Qed.

(** The range theorem at the two-hands scenario of the specification. *)
Lemma calculateGestureData_range_witness :
  (Fin 1 = NaN \/ Spec.in_unit (Fin 1))
  /\ Spec.in_unit (Fin 1) /\ Spec.in_unit (Fin 0.5).
Proof.
  assert (Hv : calculateGestureData wrists_apart =
               Normal {| expansion := Fin 1; lift := Fin 0.5 |}).
  { unfold wrists_apart.
    change (point_hand 0.1 0.5)
      with (landmark 0.1 0.5 :: replicate 20 (landmark 0.1 0.5)).
    change (point_hand 0.6 0.5)
      with (landmark 0.6 0.5 :: replicate 20 (landmark 0.6 0.5)).
    rewrite (two_hands_value (landmark 0.1 0.5) (landmark 0.6 0.5)
               (replicate 20 (landmark 0.1 0.5))
               (replicate 20 (landmark 0.6 0.5)) 0.1 0.5 0.6 0.5)
      by reflexivity.
    rewrite distance_horizontal by lra.
    rewrite clamp_high; [do 3 f_equal; lra |].
    unfold Spec.rescale. lra. }
  assert (Hsmall : forall r, 0 <= r <= 1 -> Rabs r <= 1)
    by (intros r Hr; apply Rabs_le; lra).
  assert (Hmoderate : Spec.moderate_result wrists_apart).
  { unfold Spec.moderate_result, wrists_apart. cbn [landmarks].
    constructor; [apply point_hand_moderate; apply Hsmall; lra |].
    constructor; [apply point_hand_moderate; apply Hsmall; lra | constructor]. }
  assert (Hw : Spec.wrists_in_frame wrists_apart).
  { unfold Spec.wrists_in_frame, wrists_apart. cbn [landmarks].
    constructor; [exists 0.5; split; [reflexivity | lra] |].
    constructor; [exists 0.5; split; [reflexivity | lra] | constructor]. }
  destruct (calculateGestureData_range wrists_apart _ Hv) as (Hany & He & Hl).
  split; [exact Hany |]. split; [exact (He Hmoderate) | exact (Hl Hw)].
Defined.

(** The two-hands scenario of the specification: wrists at (0.1, 0.5) and
    (0.6, 0.5) give expansion 1 and lift 0.5. *)
Lemma calculateGestureData_two_hands_witness :
  calculateGestureData wrists_apart =
  Normal {| expansion := Fin 1; lift := Fin 0.5 |}.
Proof.
  destruct (calculateGestureData_two_hands
              (landmark 0.1 0.5) (landmark 0.6 0.5)
              (replicate 20 (landmark 0.1 0.5))
              (replicate 20 (landmark 0.6 0.5)) 0.1 0.5 0.6 0.5
              eq_refl eq_refl eq_refl eq_refl) as (Hv & _ & Hfar).
  unfold wrists_apart. change (point_hand 0.1 0.5)
    with (landmark 0.1 0.5 :: replicate 20 (landmark 0.1 0.5)).
  change (point_hand 0.6 0.5)
    with (landmark 0.6 0.5 :: replicate 20 (landmark 0.6 0.5)).
  rewrite Hv, Hfar.
  - do 3 f_equal. lra.
  - rewrite distance_horizontal by lra. lra.
Defined.

(** An open hand: spread 0.2 over hand size 0.2 gives expansion 5/7, and
    lift is the wrist's 0.8. *)
Lemma calculateGestureData_one_hand_witness :
  calculateGestureData one_open_hand =
  Normal {| expansion := Fin (5 / 7); lift := Fin 0.8 |}.
Proof.
  destruct (calculateGestureData_one_hand open_hand
              (landmark 0.4 0.6) (landmark 0.6 0.6)
              (landmark 0.5 0.8) (landmark 0.5 0.6)
              0.4 0.6 0.6 0.6 0.5 0.8 0.5 0.6
              eq_refl eq_refl eq_refl eq_refl
              eq_refl eq_refl eq_refl eq_refl
              eq_refl eq_refl eq_refl eq_refl) as (Hv & _ & _).
  unfold one_open_hand. rewrite Hv.
  rewrite distance_horizontal by lra.
  replace (Spec.distance 0.5 0.6 0.5 0.8) with 0.2
    by (rewrite distance_vertical; lra).
  destruct (Req_dec_T 0.2 0) as [H0 | _]; [lra |].
  do 3 f_equal. unfold Spec.clamp.
  destruct (Rlt_dec _ 0) as [Hlo | _]; [lra |].
  destruct (Rlt_dec 1 _) as [Hhi | _]; lra.
Defined.

(** Three hands fall through to the default. *)
Lemma calculateGestureData_other_counts_witness :
  calculateGestureData three_hands =
  Normal {| expansion := Fin 0; lift := Fin 0.5 |}.
Proof.
  apply calculateGestureData_other_counts; cbn; lia.
Defined.

End GestureExamples.

(* ================================================================= *)
(** ** Points in a ball *)

Section Sphere.

Import THREE Geometry.

Lemma Rcbrt_unit w : 0 <= w < 1 -> 0 <= Rcbrt w <= 1.
Proof.
  intros [H0 H1]. unfold Rcbrt.
  destruct (Rlt_dec 0 w) as [Hpos | Hnpos].
  - unfold Rpower. split.
    + left. apply exp_pos.
    + left. rewrite <- exp_0. apply exp_increasing.
      assert (Hln : ln w < 0) by (rewrite <- ln_1; apply ln_increasing; lra).
      nra.
  - destruct (Rlt_dec w 0); lra.
Qed.

Lemma sin_cos_square a : sin a * sin a + cos a * cos a = 1.
Proof. exact (sin2_cos2 a). Qed.

(** The squared norm of a point given by radius, polar and azimuthal
    angle. *)
Lemma spherical_norm rho phi theta :
  0 <= rho ->
  Spec.norm (rho * sin phi * cos theta) (rho * sin phi * sin theta)
            (rho * cos phi) = rho.
Proof.
  intros Hrho. unfold Spec.norm.
  replace ((rho * sin phi * cos theta) ^ 2 + (rho * sin phi * sin theta) ^ 2
           + (rho * cos phi) ^ 2)
    with (rho * rho
          * (sin phi * sin phi * (sin theta * sin theta + cos theta * cos theta)
             + cos phi * cos phi)) by ring.
  rewrite sin_cos_square, Rmult_1_r, sin_cos_square, Rmult_1_r.
  now apply sqrt_square.
Qed.

(** The value of [randomPointInSphere] on a finite radius. *)
Lemma randomPointInSphere_value r s :
  Spec.uniform s ->
  let theta := 2 * PI * s 0%nat in
  let phi := acos (2 * s 1%nat - 1) in
  let rho := Rcbrt (s 2%nat) * r in
  randomPointInSphere (Fin r) s =
  ({| x := Fin (rho * sin phi * cos theta);
      y := Fin (rho * sin phi * sin theta);
      z := Fin (rho * cos phi) |},
   fun n => s (S (S (S n)))).
Proof.
  intros Hs theta phi rho.
  unfold randomPointInSphere, rbind, Math_random, ret, Math_PI.
  cbn [mul sub]. rewrite Math_acos_Fin by (pose proof (Hs 1%nat); lra).
  reflexivity.
Qed.

Lemma scaled_radius r w : 0 <= r -> 0 <= w < 1 -> 0 <= Rcbrt w * r <= r.
Proof.
  intros Hr Hw. pose proof (Rcbrt_unit w Hw). nra.
Qed.

End Sphere.

Section SphereClaims.

Import THREE Geometry.

Lemma uniform_tail s : Spec.uniform s -> Spec.uniform (fun n => s (S n)).
Proof. intros H n. apply H. Qed.

Lemma uniform_halves : Spec.uniform Examples.halves.
Proof. intros n. unfold Examples.halves. lra. Qed.

Lemma uniform_starting_with first :
  0 <= first < 1 -> Spec.uniform (Examples.starting_with first).
Proof. intros H [| n]; cbn; lra. Qed.

(** A point drawn in a ball of radius [r]: finite coordinates and norm at
    most [r]. *)
Lemma randomPointInSphere_norm r s :
  0 <= r -> Spec.uniform s ->
  exists X Y Z,
    fst (randomPointInSphere (Fin r) s) =
      {| x := Fin X; y := Fin Y; z := Fin Z |}
    /\ snd (randomPointInSphere (Fin r) s) = (fun n => s (S (S (S n))))
    /\ Spec.norm X Y Z <= r.
Proof.
  intros Hr Hs. rewrite randomPointInSphere_value by assumption.
  do 3 eexists. split; [reflexivity |]. split; [reflexivity |].
  pose proof (scaled_radius r (s 2%nat) Hr (Hs 2%nat)) as Hrho.
  rewrite spherical_norm; lra.
Qed.

(** C10. For a radius [r >= 0] and draws in [0, 1), the point returned by
    [randomPointInSphere] has Euclidean norm at most [r]; hence the points
    of Saturn's body lie within 1.8 of the origin and the points of the
    tree's star within 0.3 of the centre (0, 2.2, 0). *)
Theorem randomPointInSphere_within_radius r s :
  0 <= r -> Spec.uniform s ->
  (exists X Y Z,
      fst (randomPointInSphere (Fin r) s) =
        {| x := Fin X; y := Fin Y; z := Fin Z |}
      /\ Spec.norm X Y Z <= r)
  /\ (forall positions i, s 0%nat <= 0.4 ->
      exists X Y Z,
        fst (case_SATURN positions i s) =
          setPoint positions i (Fin X) (Fin Y) (Fin Z)
        /\ Spec.norm X Y Z <= 1.8)
  /\ (forall positions i, 0.95 < s 0%nat ->
      exists X Y Z,
        fst (case_TREE positions i s) =
          setPoint positions i (Fin X) (Fin Y) (Fin Z)
        /\ Spec.norm X (Y - 2.2) Z <= 0.3).
Proof.
  intros Hr Hs. split; [| split].
  - destruct (randomPointInSphere_norm r s Hr Hs) as (X & Y & Z & Hp & _ & Hn).
    now exists X, Y, Z.
  - intros positions i Hbody.
    unfold case_SATURN, rbind at 1, Math_random at 1, gt.
    rewrite lt_Fin_false by assumption.
    unfold rbind at 1.
    rewrite randomPointInSphere_value by now apply uniform_tail.
    cbn [x y z ret fst].
    do 3 eexists. split; [reflexivity |].
    pose proof (scaled_radius 1.8 (s 3%nat) ltac:(lra) (Hs 3%nat)).
    rewrite spherical_norm; lra.
  - intros positions i Hstar.
    unfold case_TREE, rbind at 1, Math_random at 1, gt.
    rewrite lt_Fin_true by assumption.
    unfold rbind at 1.
    rewrite randomPointInSphere_value by now apply uniform_tail.
    cbn [x y z ret fst add].
    do 3 eexists. split; [reflexivity |].
    pose proof (scaled_radius 0.3 (s 3%nat) ltac:(lra) (Hs 3%nat)).
    match goal with
    | |- Spec.norm _ (?a + 2.2 - 2.2) _ <= _ =>
        replace (a + 2.2 - 2.2) with a by ring
    end.
    rewrite spherical_norm; lra.
Qed.

(** A point of the ball of radius 2, and a point of Saturn's body, drawn
    from concrete random sources. *)
Lemma randomPointInSphere_within_radius_witness :
  (exists X Y Z,
      fst (randomPointInSphere (Fin 2) Examples.halves) =
        {| x := Fin X; y := Fin Y; z := Fin Z |}
      /\ Spec.norm X Y Z <= 2)
  /\ (exists X Y Z,
        fst (case_SATURN [] 0 (Examples.starting_with 0.2)) =
          setPoint [] 0 (Fin X) (Fin Y) (Fin Z)
        /\ Spec.norm X Y Z <= 1.8).
Proof.
  split.
  - apply (randomPointInSphere_within_radius 2 Examples.halves);
      [lra | apply uniform_halves].
  - apply (randomPointInSphere_within_radius 0 (Examples.starting_with 0.2));
      [lra | apply uniform_starting_with; lra | cbn; lra].
Defined.

End SphereClaims.

(* ================================================================= *)
(** ** The letters *)

Section Letters.

Import Geometry.

Lemma first_half i count :
  (2 * i < count)%nat -> INR i < INR count / 2.
Proof.
  intros H. apply lt_INR in H. rewrite mult_INR in H. cbn in H. lra.
Qed.

(** C8. A particle of letter D sent to the arc fill is written with its
    abscissa passed through the guard [Math.max(x, -2.0)]: no point left of
    the centre line [x = -2.0] of the arc is produced. *)
Theorem letter_D_arc_fill_guard count positions i s :
  (2 * i < count)%nat -> 0.7 <= s 0%nat -> 0.5 <= s 1%nat ->
  let angle := (s 2%nat - 0.5) * PI in
  let rad := s 3%nat * 1.5 in
  let x := - 2.0 + rad * cos angle in
  fst (case_DL count positions i s) =
    setPoint positions i
      (Fin (Rmax x (- 2.0))) (Fin (rad * sin angle))
      (Fin ((s 4%nat - 0.5) * 0.5))
  /\ - 2.0 <= Rmax x (- 2.0).
Proof.
  intros Hi Hfill Harc angle rad x. split; [| apply Rmax_r].
  unfold case_DL. rewrite div_Fin by lra.
  rewrite lt_Fin_true by now apply first_half.
  unfold letter_D, rbind, Math_random, ret, Math_PI.
  rewrite lt_Fin_false by assumption.
  rewrite lt_Fin_false by assumption.
  reflexivity.
Qed.

(** The guard on concrete draws: angle -PI/4 and radius 0.75. *)
Lemma letter_D_arc_fill_guard_witness :
  - 2.0 <= Rmax (- 2.0 + 0.5 * 1.5 * cos ((0.25 - 0.5) * PI)) (- 2.0).
Proof.
  apply (letter_D_arc_fill_guard 2 [] 0 Examples.arc_fill_draws);
    [lia | cbn; lra | cbn; lra].
Defined.

End Letters.

(* ================================================================= *)
(** ** The frame callback *)

Section Smoothing.

Import Vision ParticleMesh.

Lemma lerp_Fin a b t : THREE.lerp (Fin a) (Fin b) (Fin t) = Fin ((1 - t) * a + t * b).
Proof. reflexivity. Qed.

(** One frame with both refs attached and finite values. *)
Lemma useFrame_step shape color gesture t m p cur rx e l :
  uExpansion m = Fin cur -> rotation_x p = Fin rx ->
  expansion gesture = Fin e -> lift gesture = Fin l ->
  exists m' p',
    useFrame shape color gesture t {| materialRef := Some m; meshRef := Some p |}
      = {| materialRef := Some m'; meshRef := Some p' |}
    /\ uExpansion m' = Fin (cur + 0.1 * (e - cur))
    /\ rotation_x p' = Fin (rx + 0.05 * ((l - 0.5) * 1.5 - rx)).
Proof.
  intros Hcur Hrx He Hl. unfold useFrame. cbn [materialRef meshRef].
  rewrite Hcur, Hrx, He, Hl. cbn [sub mul]. rewrite !lerp_Fin.
  do 2 eexists. split; [reflexivity |]. cbn [uExpansion rotation_x].
  split; f_equal; ring.
Qed.

(** C7. Each frame the expansion uniform moves toward the gesture's
    expansion by the fixed weight 0.1, whichever side the target is on, and
    the tilt moves toward (lift - 0.5) * 1.5 by the weight 0.05; over [n]
    frames the distances to the targets shrink by 0.9^n and 0.95^n.  For a
    lift in [0, 1] the tilt target lies in [-0.75, 0.75]. *)
Theorem useFrame_smoothing shape color gesture times m p cur rx e l :
  uExpansion m = Fin cur -> rotation_x p = Fin rx ->
  expansion gesture = Fin e -> lift gesture = Fin l ->
  let target := (l - 0.5) * 1.5 in
  let n := length times in
  (forall t, exists m' p',
      useFrame shape color gesture t
        {| materialRef := Some m; meshRef := Some p |}
        = {| materialRef := Some m'; meshRef := Some p' |}
      /\ uExpansion m' = Fin (cur + 0.1 * (e - cur))
      /\ rotation_x p' = Fin (rx + 0.05 * (target - rx)))
  /\ (exists m' p',
      Spec.frames shape color gesture times
        {| materialRef := Some m; meshRef := Some p |}
        = {| materialRef := Some m'; meshRef := Some p' |}
      /\ uExpansion m' = Fin (e + (1 - 0.1) ^ n * (cur - e))
      /\ rotation_x p' = Fin (target + (1 - 0.05) ^ n * (rx - target)))
  /\ (0 <= l <= 1 -> - 0.75 <= target <= 0.75).
Proof.
  intros Hcur Hrx He Hl target n. split; [| split].
  - intros t. exact (useFrame_step shape color gesture t m p cur rx e l
                       Hcur Hrx He Hl).
  - subst n. revert m p cur rx Hcur Hrx.
    induction times as [| t times IH]; intros m p cur rx Hcur Hrx.
    + exists m, p. cbn [Spec.frames fold_left length pow].
      split; [reflexivity |]. rewrite Hcur, Hrx. split; f_equal; ring.
    + destruct (useFrame_step shape color gesture t m p cur rx e l
                  Hcur Hrx He Hl) as (m1 & p1 & Hstep & Hm1 & Hp1).
      destruct (IH m1 p1 _ _ Hm1 Hp1) as (m' & p' & Hrun & Hm' & Hp').
      exists m', p'. unfold Spec.frames in *. cbn [fold_left].
      rewrite Hstep, Hrun. split; [reflexivity |].
      rewrite Hm', Hp'. cbn [length pow]. subst target.
      split; f_equal; ring.
  - subst target. lra.
Qed.

(** Three frames from rest under a fully open gesture held at the top of
    the image. *)
Lemma useFrame_smoothing_witness :
  exists m' p',
    Spec.frames HEART "#ff007f" Examples.open_high [Fin 0.1; Fin 0.2; Fin 0.3]
      {| materialRef := Some Examples.rest_material;
         meshRef := Some Examples.rest_points |}
      = {| materialRef := Some m'; meshRef := Some p' |}
    /\ uExpansion m' = Fin (1 + (1 - 0.1) ^ 3 * (0 - 1))
    /\ rotation_x p' =
         Fin ((0 - 0.5) * 1.5 + (1 - 0.05) ^ 3 * (0 - (0 - 0.5) * 1.5)).
Proof.
  exact (proj1 (proj2 (useFrame_smoothing HEART "#ff007f" Examples.open_high
                         [Fin 0.1; Fin 0.2; Fin 0.3]
                         Examples.rest_material Examples.rest_points
                         0 0 1 0 eq_refl eq_refl eq_refl eq_refl))).
Defined.

End Smoothing.

(* ================================================================= *)
(** ** Magnitude bounds *)

Section Bounds.

Lemma bnd_add a b A B : Rabs a <= A -> Rabs b <= B -> Rabs (a + b) <= A + B.
Proof. intros Ha Hb. pose proof (Rabs_triang a b). lra. Qed.

Lemma bnd_sub a b A B : Rabs a <= A -> Rabs b <= B -> Rabs (a - b) <= A + B.
Proof.
  intros Ha Hb. unfold Rminus. apply bnd_add; [assumption |].
  now rewrite Rabs_Ropp.
Qed.

Lemma bnd_mul a b A B : Rabs a <= A -> Rabs b <= B -> Rabs (a * b) <= A * B.
Proof.
  intros Ha Hb. rewrite Rabs_mult.
  pose proof (Rabs_pos a). pose proof (Rabs_pos b). nra.
Qed.

Lemma bnd_opp a A : Rabs a <= A -> Rabs (- a) <= A.
Proof. now rewrite Rabs_Ropp. Qed.

Lemma bnd_sin a : Rabs (sin a) <= 1.
Proof. apply Rabs_le. pose proof (SIN_bound a). lra. Qed.

Lemma bnd_cos a : Rabs (cos a) <= 1.
Proof. apply Rabs_le. pose proof (COS_bound a). lra. Qed.

Lemma bnd_unit c : -1 <= c <= 1 -> Rabs c <= 1.
Proof. intros H. apply Rabs_le. lra. Qed.

Lemma bnd_nonneg c : 0 <= c -> Rabs c <= c.
Proof. intros H. rewrite Rabs_pos_eq; lra. Qed.

Lemma bnd_nonpos c : c <= 0 -> Rabs c <= - c.
Proof. intros H. rewrite <- Rabs_Ropp, Rabs_pos_eq; lra. Qed.

Lemma bnd_cube a A : Rabs a <= A -> Rabs (a ^ 3) <= A * (A * (A * 1)).
Proof.
  intros Ha. cbn [pow]. repeat apply bnd_mul; try assumption.
  rewrite Rabs_R1. lra.
Qed.

Lemma bnd_sqrt a A : Rabs a <= A -> Rabs (sqrt a) <= 1 + A.
Proof.
  intros Ha. pose proof (Rabs_pos a) as Hpos.
  rewrite Rabs_pos_eq by apply sqrt_pos.
  destruct (Rle_dec a 1) as [Hle | Hgt].
  - destruct (Rle_dec 0 a) as [H0 | Hneg].
    + rewrite <- sqrt_1. apply Rle_trans with (sqrt 1); [| rewrite sqrt_1; lra].
      rewrite sqrt_1. rewrite <- sqrt_1. apply sqrt_le_1_alt. lra.
    + rewrite sqrt_neg_0 by lra. lra.
  - assert (H1 : 1 <= a) by lra.
    apply Rle_trans with a.
    + assert (Hs : sqrt a <= sqrt (a * a)) by (apply sqrt_le_1_alt; nra).
      rewrite sqrt_square in Hs by lra. exact Hs.
    + rewrite Rabs_pos_eq in Ha by lra. lra.
Qed.

Lemma bnd_max a b A B : Rabs a <= A -> Rabs b <= B -> Rabs (Rmax a b) <= A + B.
Proof.
  intros Ha Hb. pose proof (Rabs_pos a). pose proof (Rabs_pos b).
  unfold Rmax. destruct (Rle_dec a b); lra.
Qed.

End Bounds.

(** [bound] proves [Rabs e <= ?B] by recursion on [e], choosing [?B]. *)
Ltac bound :=
  lazymatch goal with
  | |- Rabs (?a + ?b) <= _ => eapply bnd_add; [bound | bound]
  | |- Rabs (?a - ?b) <= _ => eapply bnd_sub; [bound | bound]
  | |- Rabs (?a * ?b) <= _ => eapply bnd_mul; [bound | bound]
  | |- Rabs (sin _) <= _ => apply bnd_sin
  | |- Rabs (cos _) <= _ => apply bnd_cos
  | |- Rabs (sqrt _) <= _ => eapply bnd_sqrt; bound
  | |- Rabs (Rmax _ _) <= _ => eapply bnd_max; [bound | bound]
  | |- Rabs (_ ^ 3) <= _ => eapply bnd_cube; bound
  | |- Rabs (Rcbrt ?w) <= _ =>
      apply bnd_unit; pose proof (Rcbrt_unit w ltac:(lra)); lra
  | |- Rabs ?c <= _ =>
      first [ solve [apply bnd_unit; lra]
            | solve [apply bnd_nonneg; lra]
            | solve [apply bnd_nonpos; lra] ]
  end.

Section PowFacts.

Lemma Int_part_3 : Int_part 3 = 3%Z.
Proof. symmetry. apply Int_part_spec. lra. Qed.

Lemma Math_pow_cube b : Math_pow (Fin b) (Fin 3) = Fin (b ^ 3).
Proof.
  unfold Math_pow. rewrite is_zero_false by lra.
  destruct (Rlt_dec 0 b) as [Hpos | Hnpos].
  - f_equal. replace 3 with (INR 3) by (cbn; lra). now apply Rpower_pow.
  - unfold is_zero, is_integer. destruct (Req_dec_T b 0) as [-> | Hnz].
    + destruct (Rlt_dec 0 3); [f_equal; ring | lra].
    + rewrite Int_part_3. destruct (Req_dec_T 3 3); [| lra].
      reflexivity.
Qed.

Lemma Rpower_unit a e : 0 < a < 1 -> 0 < e -> 0 <= Rpower a e <= 1.
Proof.
  intros Ha He. unfold Rpower. split.
  - left. apply exp_pos.
  - left. rewrite <- exp_0. apply exp_increasing.
    assert (Hln : ln a < 0) by (rewrite <- ln_1; apply ln_increasing; lra).
    nra.
Qed.

Lemma Math_pow_unit a e :
  0 <= a < 1 -> 0 < e ->
  exists r, Math_pow (Fin a) (Fin e) = Fin r /\ 0 <= r <= 1.
Proof.
  intros Ha He. unfold Math_pow. rewrite is_zero_false by lra.
  destruct (Rlt_dec 0 a) as [Hpos | Hnpos].
  - eexists. split; [reflexivity |]. apply Rpower_unit; lra.
  - rewrite is_zero_true by lra. destruct (Rlt_dec 0 e); [| lra].
    exists 0. split; [reflexivity | lra].
Qed.

End PowFacts.

(* ================================================================= *)
(** ** The generator writes finite coordinates *)

(** Reduction of the straight-line code of a [switch] case. *)
Ltac run_case :=
  cbn [rbind Math_random ret add sub mul neg Math_sin Math_cos Math_cbrt
       Math_floor Math_max Math_PI gt Geometry.randomPointInSphere
       THREE.x THREE.y THREE.z].

(** The operations that can leave the finite numbers, on arguments in
    their domains. *)
Ltac in_domain :=
  repeat first
    [ rewrite Math_pow_cube
    | rewrite Math_sqrt_Fin by lra
    | rewrite Math_acos_Fin by lra
    | match goal with
      | |- context [Math_pow (Fin ?a) (Fin ?e)] =>
          let r := fresh "r" in
          destruct (Math_pow_unit a e ltac:(lra) ltac:(lra)) as (r & -> & ?)
      end ].

Ltac split_branches :=
  repeat (match goal with
          | |- context [if ?c then _ else _] => destruct c
          end; run_case; in_domain).

Lemma small_Fin e B : Rabs e <= B -> B <= 64 -> Spec.small (Fin e).
Proof. intros H1 H2. exists e. split; [reflexivity | lra]. Qed.

Ltac draws Hs :=
  pose proof (Hs 0%nat); pose proof (Hs 1%nat); pose proof (Hs 2%nat);
  pose proof (Hs 3%nat); pose proof (Hs 4%nat); pose proof (Hs 5%nat);
  pose proof (Hs 6%nat); pose proof (Hs 7%nat).

Ltac point_written :=
  do 4 eexists; split; [reflexivity |];
  split; [eapply small_Fin; [bound | lra] |];
  split; [eapply small_Fin; [bound | lra] |];
  split; [eapply small_Fin; [bound | lra] |];
  first [ solve [exists 0%nat; intros ?; reflexivity]
        | solve [exists 1%nat; intros ?; reflexivity]
        | solve [exists 2%nat; intros ?; reflexivity]
        | solve [exists 3%nat; intros ?; reflexivity]
        | solve [exists 4%nat; intros ?; reflexivity]
        | solve [exists 5%nat; intros ?; reflexivity]
        | solve [exists 6%nat; intros ?; reflexivity]
        | solve [exists 7%nat; intros ?; reflexivity]
        | solve [exists 8%nat; intros ?; reflexivity] ].

Section GeneratorCases.

Import THREE Geometry.

Lemma case_HEART_writes positions i s :
  Spec.uniform s -> Spec.writes_point positions i s (case_HEART positions i s).
Proof.
  intros Hs. draws Hs. unfold case_HEART.
  run_case. in_domain. split_branches; point_written.
Qed.

Lemma case_ROSE_writes positions i s :
  Spec.uniform s -> Spec.writes_point positions i s (case_ROSE positions i s).
Proof.
  intros Hs. draws Hs. unfold case_ROSE.
  run_case. in_domain. split_branches; point_written.
Qed.

Lemma case_SATURN_writes positions i s :
  Spec.uniform s -> Spec.writes_point positions i s (case_SATURN positions i s).
Proof.
  intros Hs. draws Hs. unfold case_SATURN.
  run_case. in_domain. split_branches; point_written.
Qed.

Lemma case_DL_writes count positions i s :
  Spec.uniform s -> Spec.writes_point positions i s (case_DL count positions i s).
Proof.
  intros Hs. draws Hs. unfold case_DL, letter_D, letter_L.
  run_case. in_domain. split_branches; point_written.
Qed.

Lemma case_TREE_writes positions i s :
  Spec.uniform s -> Spec.writes_point positions i s (case_TREE positions i s).
Proof.
  intros Hs. draws Hs. unfold case_TREE.
  run_case. in_domain. split_branches; point_written.
Qed.

End GeneratorCases.

Section GeneratorLoop.

Import Geometry.

Lemma generateParticles_body_writes shape count i positions s :
  Spec.uniform s ->
  Spec.writes_point positions i s (generateParticles_body shape count i positions s).
Proof.
  intros Hs. unfold generateParticles_body.
  destruct (String.eqb shape HEART); [now apply case_HEART_writes |].
  destruct (String.eqb shape ROSE); [now apply case_ROSE_writes |].
  destruct (String.eqb shape SATURN); [now apply case_SATURN_writes |].
  destruct (String.eqb shape DL); [now apply case_DL_writes |].
  destruct (String.eqb shape TREE); [now apply case_TREE_writes |].
  exists (Fin 0), (Fin 0), (Fin 0), s. split; [reflexivity |].
  assert (H0 : Spec.small (Fin 0)).
  { exists 0. split; [reflexivity |]. rewrite Rabs_R0. lra. }
  repeat (split; [exact H0 |]). now exists 0%nat.
Qed.

Lemma float32_overflow_large : 64 < float32_overflow.
Proof.
  unfold float32_overflow.
  replace (2 ^ 128 - 2 ^ 103)%Z
    with 340282356779733661637539395458142568448%Z by reflexivity.
  lra.
Qed.

Lemma Math_fround_small a : Spec.small a -> Math_fround a = a.
Proof.
  intros (r & -> & Hr). unfold Math_fround.
  pose proof float32_overflow_large.
  destruct (Rlt_dec (Rabs r) float32_overflow); [reflexivity | lra].
Qed.

Lemma small_finite a : Spec.small a -> Spec.finite a.
Proof. intros (r & -> & _). now exists r. Qed.

Lemma set_index_length arr i v : length (set_index arr i v) = length arr.
Proof. unfold set_index. apply length_insert. Qed.

Lemma set_index_finite arr i v :
  Spec.small v -> Forall Spec.finite arr -> Forall Spec.finite (set_index arr i v).
Proof.
  intros Hv Harr. unfold set_index. rewrite Math_fround_small by assumption.
  apply Forall_insert; [assumption | now apply small_finite].
Qed.

Lemma setPoint_length positions i X Y Z :
  length (setPoint positions i X Y Z) = length positions.
Proof. unfold setPoint. now rewrite !set_index_length. Qed.

Lemma setPoint_finite positions i X Y Z :
  Spec.small X -> Spec.small Y -> Spec.small Z ->
  Forall Spec.finite positions ->
  Forall Spec.finite (setPoint positions i X Y Z).
Proof.
  intros HX HY HZ Hpos. unfold setPoint.
  repeat apply set_index_finite; assumption.
Qed.

(** An invariant of the state and of the random source that every
    iteration preserves holds when the loop ends. *)
Lemma for_loop_invariant {S : Type} (Inv : S -> rng -> Prop)
    (stride bound : nat) (body : nat -> S -> Rand S) :
  (forall j st s, Inv st s -> Inv (fst (body j st s)) (snd (body j st s))) ->
  forall fuel i st s,
    Inv st s ->
    Inv (fst (for_loop fuel i stride bound body st s))
        (snd (for_loop fuel i stride bound body st s)).
Proof.
  intros Hbody fuel. induction fuel as [| fuel IH]; intros i st s Hinv.
  - exact Hinv.
  - cbn [for_loop]. destruct (i <? bound)%nat; [| exact Hinv].
    unfold rbind. specialize (Hbody i st s Hinv).
    destruct (body i st s) as [st' s']. now apply IH.
Qed.

(** Once the fuel covers the distance to the bound, more fuel changes
    nothing: the loop has ended by its own test. *)
Lemma for_loop_enough {S : Type} (stride bound : nat)
    (body : nat -> S -> Rand S) (extra : nat) :
  (0 < stride)%nat ->
  forall fuel i st s,
    (bound <= i + fuel * stride)%nat ->
    for_loop (fuel + extra) i stride bound body st s
    = for_loop fuel i stride bound body st s.
Proof.
  intros Hstride fuel.
  induction fuel as [| fuel IH]; intros i st s Hfuel.
  - cbn [Nat.add for_loop]. destruct extra as [| extra]; [reflexivity |].
    cbn [for_loop].
    now destruct (Nat.ltb_spec i bound) as [Hlt | _]; [lia |].
  - cbn [Nat.add for_loop].
    destruct (i <? bound)%nat; [| reflexivity].
    unfold rbind. destruct (body i st s) as [st' s'].
    apply IH. nia.
Qed.

Lemma new_Float32Array_finite n :
  length (new_Float32Array n) = n /\ Forall Spec.finite (new_Float32Array n).
Proof.
  unfold new_Float32Array. split; [apply length_replicate |].
  apply Forall_replicate. now exists 0.
Qed.

Lemma suffix_refl s : Spec.suffix s s.
Proof. now exists 0%nat. Qed.

Lemma suffix_trans s1 s2 s3 :
  Spec.suffix s1 s2 -> Spec.suffix s2 s3 -> Spec.suffix s1 s3.
Proof.
  intros [d1 H1] [d2 H2]. exists (d1 + d2)%nat. intros n.
  rewrite H2, H1. f_equal. lia.
Qed.

Lemma suffix_uniform s s' : Spec.suffix s s' -> Spec.uniform s -> Spec.uniform s'.
Proof. intros [d Hd] Hs n. rewrite Hd. apply Hs. Qed.

(** The buffer returned by the generator, and the random source it
    leaves. *)
Lemma generateParticles_result shape count s :
  Spec.uniform s ->
  length (fst (generateParticles shape count s)) = (count * 3)%nat
  /\ Forall Spec.finite (fst (generateParticles shape count s))
  /\ Spec.suffix s (snd (generateParticles shape count s)).
Proof.
  intros Hs. unfold generateParticles.
  apply (for_loop_invariant
           (fun positions s0 =>
              length positions = (count * 3)%nat
              /\ Forall Spec.finite positions /\ Spec.suffix s s0)).
  - intros j positions s0 (Hlen & Hfin & Hs0).
    destruct (generateParticles_body_writes shape count j positions s0
                (suffix_uniform s s0 Hs0 Hs))
      as (X & Y & Z & s' & -> & HX & HY & HZ & Hs').
    cbn [fst snd]. rewrite setPoint_length.
    split; [assumption |].
    split; [now apply setPoint_finite | now apply suffix_trans with s0].
  - destruct (new_Float32Array_finite (count * 3)) as [Hlen Hfin].
    split; [assumption |]. split; [assumption | apply suffix_refl].
Qed.

(** C1. For every shape selector, the five shapes and any other string
    alike, and every particle count N, the generator returns a buffer of
    length 3N whose every component is a finite number, provided the draws
    of the random source lie in [0, 1).  The loop ends by its own test, and
    the result is a function of the selector, the count and the draws
    alone: no other state is read or written. *)
Theorem generateParticles_finite shape count s :
  Spec.uniform s ->
  length (fst (generateParticles shape count s)) = (3 * count)%nat
  /\ Forall Spec.finite (fst (generateParticles shape count s))
  /\ (forall extra,
        for_loop (count + extra) 0 1 count
          (generateParticles_body shape count)
          (new_Float32Array (count * 3)) s
        = generateParticles shape count s)
  /\ (forall s2, (forall n, s2 n = s n) ->
        generateParticles shape count s2 = generateParticles shape count s).
Proof.
  intros Hs.
  destruct (generateParticles_result shape count s Hs) as (Hlen & Hfin & _).
  split; [lia |]. split; [assumption |]. split.
  - intros extra. unfold generateParticles.
    apply for_loop_enough; lia.
  - intros s2 Heq.
    assert (Hs2 : s2 = s)
      by (apply FunctionalExtensionality.functional_extensionality; exact Heq).
    now rewrite Hs2.
Qed.

(** Two particles of the heart from the source of constant draws. *)
Lemma generateParticles_finite_witness :
  length (fst (generateParticles HEART 2 Examples.halves)) = 6%nat
  /\ Forall Spec.finite (fst (generateParticles HEART 2 Examples.halves)).
Proof.
  destruct (generateParticles_finite HEART 2 Examples.halves uniform_halves)
    as (Hlen & Hfin & _).
  split; [exact Hlen | exact Hfin].
Defined.

End GeneratorLoop.

(* ================================================================= *)
(** ** The explosion directions *)

Section Directions.

Import ParticleMesh.

Lemma squares_zero x y z : x * x + y * y + z * z = 0 -> x = 0 /\ y = 0 /\ z = 0.
Proof. intros H. repeat split; nra. Qed.

Lemma divisor_nonzero x y z : Spec.divisor x y z <> 0.
Proof. unfold Spec.divisor. destruct (Req_dec_T _ 0); [lra | assumption]. Qed.

Lemma divisor_zero x y z :
  x = 0 -> y = 0 -> z = 0 -> Spec.divisor x y z = 1.
Proof.
  intros -> -> ->. unfold Spec.divisor.
  replace (0 * 0 + 0 * 0 + 0 * 0) with 0 by ring. rewrite sqrt_0.
  destruct (Req_dec_T 0 0); [reflexivity | lra].
Qed.

Lemma divisor_norm x y z :
  ~ (x = 0 /\ y = 0 /\ z = 0) ->
  0 < Spec.divisor x y z /\ Spec.divisor x y z * Spec.divisor x y z = x * x + y * y + z * z.
Proof.
  intros Hnz. unfold Spec.divisor.
  assert (Hsq : 0 <= x * x + y * y + z * z) by nra.
  destruct (Req_dec_T _ 0) as [H0 | Hn0].
  - apply sqrt_eq_0 in H0; [| assumption].
    exfalso. apply Hnz. now apply squares_zero.
  - split; [| now apply sqrt_sqrt].
    pose proof (sqrt_pos (x * x + y * y + z * z)). lra.
Qed.

Lemma component_le_divisor x y z : Rabs (x / Spec.divisor x y z) <= 1.
Proof.
  destruct (Req_dec_T (x * x + y * y + z * z) 0) as [H0 | Hn0].
  - destruct (squares_zero x y z H0) as (-> & -> & ->).
    rewrite divisor_zero by reflexivity.
    replace (0 / 1) with 0 by field. rewrite Rabs_R0. lra.
  - destruct (divisor_norm x y z) as [Hpos Hsq].
    { intros (-> & -> & ->). apply Hn0. ring. }
    unfold Rdiv. rewrite Rabs_mult, (Rabs_pos_eq (/ _))
      by (left; now apply Rinv_0_lt_compat).
    apply Rmult_le_reg_r with (Spec.divisor x y z); [assumption |].
    rewrite Rmult_assoc, Rinv_l, Rmult_1_r, Rmult_1_l by lra.
    apply Rabs_le. split; nra.
Qed.

Lemma normalized_norm x y z :
  ~ (x = 0 /\ y = 0 /\ z = 0) ->
  Spec.norm (x / Spec.divisor x y z) (y / Spec.divisor x y z) (z / Spec.divisor x y z) = 1.
Proof.
  intros Hnz. destruct (divisor_norm x y z Hnz) as [Hpos Hsq].
  unfold Spec.norm.
  replace ((x / Spec.divisor x y z) ^ 2 + (y / Spec.divisor x y z) ^ 2
           + (z / Spec.divisor x y z) ^ 2)
    with ((x * x + y * y + z * z) / (Spec.divisor x y z * Spec.divisor x y z))
    by (field; lra).
  rewrite <- Hsq. unfold Rdiv. rewrite Rinv_r by nra. apply sqrt_1.
Qed.


Lemma divisor_rotate x y z : Spec.divisor x y z = Spec.divisor y z x.
Proof.
  unfold Spec.divisor.
  now replace (y * y + z * z + x * x) with (x * x + y * y + z * z) by ring.
Qed.

Lemma direction_small x y z :
  Spec.small (Fin (x / Spec.divisor x y z))
  /\ Spec.small (Fin (y / Spec.divisor x y z))
  /\ Spec.small (Fin (z / Spec.divisor x y z)).
Proof.
  pose proof (component_le_divisor x y z) as Hx.
  pose proof (component_le_divisor y z x) as Hy.
  pose proof (component_le_divisor z x y) as Hz.
  rewrite <- divisor_rotate in Hy.
  rewrite <- 2!divisor_rotate in Hz.
  repeat split; (eexists; split; [reflexivity | lra]).
Qed.

(** One iteration of the direction loop: the three components written and
    the random source left. *)
Lemma randomness_body_value i rand s :
  let x := s 0%nat - 0.5 in
  let y := s 1%nat - 0.5 in
  let z := s 2%nat - 0.5 in
  randomness_body i rand s =
  (<[ (i + 2)%nat := Fin (z / Spec.divisor x y z) ]>
     (<[ (i + 1)%nat := Fin (y / Spec.divisor x y z) ]>
        (<[ i := Fin (x / Spec.divisor x y z) ]> rand)),
   fun n => s (S (S (S n)))).
Proof.
  intros x y z.
  unfold randomness_body, rbind, Math_random, ret. cbn [sub mul add].
  fold x y z.
  rewrite Math_sqrt_Fin by nra. rewrite or_else_Fin.
  fold (Spec.divisor x y z).
  rewrite !div_Fin by apply divisor_nonzero.
  destruct (direction_small x y z) as (Hx & Hy & Hz).
  unfold set_index. now rewrite !Math_fround_small by assumption.
Qed.

(** The three writes of one iteration, read back. *)
Lemma triple_insert_lookup (rand : Float32Array) (k : nat) (a b c : number) :
  (3 * k + 2 < length rand)%nat ->
  Spec.vector_at
    (<[ (k * 3 + 2)%nat := c ]> (<[ (k * 3 + 1)%nat := b ]>
                                   (<[ (k * 3)%nat := a ]> rand))) k
  = Some (a, b, c).
Proof.
  intros Hlen. unfold Spec.vector_at.
  replace (k * 3)%nat with (3 * k)%nat by lia.
  repeat first
    [ rewrite list_lookup_insert_eq by (rewrite ?length_insert; lia)
    | rewrite list_lookup_insert_ne by lia ].
  reflexivity.
Qed.

Lemma triple_insert_other (rand : Float32Array) (k k' : nat) (a b c : number) :
  k' <> k ->
  Spec.vector_at
    (<[ (k * 3 + 2)%nat := c ]> (<[ (k * 3 + 1)%nat := b ]>
                                   (<[ (k * 3)%nat := a ]> rand))) k'
  = Spec.vector_at rand k'.
Proof.
  intros Hne. unfold Spec.vector_at.
  now rewrite !list_lookup_insert_ne by lia.
Qed.

(** A loop that counts [count] strides: an invariant indexed by the number
    of iterations done holds for [count] at the end. *)
Lemma for_loop_counted {S : Type} (Inv : nat -> S -> rng -> Prop)
    (stride count : nat) (body : nat -> S -> Rand S) :
  (0 < stride)%nat ->
  (forall k st s, (k < count)%nat -> Inv k st s ->
     Inv (Datatypes.S k) (fst (body (k * stride)%nat st s))
         (snd (body (k * stride)%nat st s))) ->
  forall fuel k st s,
    (k <= count)%nat -> (count - k <= fuel)%nat -> Inv k st s ->
    Inv count
        (fst (for_loop fuel (k * stride) stride (count * stride) body st s))
        (snd (for_loop fuel (k * stride) stride (count * stride) body st s)).
Proof.
  intros Hstride Hbody fuel.
  induction fuel as [| fuel IH]; intros k st s Hk Hfuel Hinv.
  - replace count with k by lia. exact Hinv.
  - cbn [for_loop].
    destruct (Nat.ltb_spec (k * stride) (count * stride)) as [Hlt | Hge].
    + assert (Hkc : (k < count)%nat) by nia.
      unfold rbind. specialize (Hbody k st s Hkc Hinv).
      destruct (body (k * stride)%nat st s) as [st' s'].
      replace (k * stride + stride)%nat with (Datatypes.S k * stride)%nat by lia.
      apply IH; [lia | lia | exact Hbody].
    + assert (Hkc : k = count) by nia. subst k. exact Hinv.
Qed.

(** The direction loop stores, for every particle, its normalised draws. *)
Lemma randomness_loop count s :
  let rand :=
    fst (for_loop (count * 3) 0 3 (count * 3) randomness_body
           (new_Float32Array (count * 3)) s) in
  length rand = (count * 3)%nat
  /\ forall k, (k < count)%nat -> Spec.direction_stored s rand k.
Proof.
  pose (Inv := fun (k : nat) (rand : Float32Array) (s' : rng) =>
                 length rand = (count * 3)%nat
                 /\ (forall n, s' n = s (3 * k + n)%nat)
                 /\ forall k', (k' < k)%nat -> Spec.direction_stored s rand k').
  assert (Hend : Inv count
            (fst (for_loop (count * 3) (0 * 3) 3 (count * 3) randomness_body
                    (new_Float32Array (count * 3)) s))
            (snd (for_loop (count * 3) (0 * 3) 3 (count * 3) randomness_body
                    (new_Float32Array (count * 3)) s))).
  { apply (for_loop_counted Inv 3 count); [lia | | lia | lia |].
    - intros k rand s' Hk (Hlen & Hs' & Hdone).
      rewrite randomness_body_value. cbn [fst snd]. split; [| split].
      + now rewrite !length_insert.
      + intros n. rewrite Hs'. f_equal. lia.
      + intros k' Hk'. unfold Spec.direction_stored in *.
        destruct (Nat.eq_dec k' k) as [-> | Hne].
        * rewrite triple_insert_lookup by lia.
          rewrite !Hs'.
          replace (3 * k + 0)%nat with (3 * k)%nat by lia. reflexivity.
        * rewrite triple_insert_other by assumption. apply Hdone. lia.
    - split; [apply new_Float32Array_finite |].
      split; [intros n; f_equal; lia | intros k' Hk'; lia]. }
  destruct Hend as (Hlen & _ & Hall). cbn [Nat.mul] in Hlen, Hall.
  split; assumption.
Qed.

Lemma useMemo_buffers_value shape count s :
  fst (useMemo_buffers shape count s) =
  {| positions := fst (Geometry.generateParticles shape count s);
     randomness :=
       fst (for_loop (count * 3) 0 3 (count * 3) randomness_body
              (new_Float32Array (count * 3))
              (snd (Geometry.generateParticles shape count s))) |}.
Proof.
  unfold useMemo_buffers, rbind, ret.
  destruct (Geometry.generateParticles shape count s) as [pos s'].
  cbn [fst snd].
  now destruct (for_loop (count * 3) 0 3 (count * 3) randomness_body
                  (new_Float32Array (count * 3)) s').
Qed.

Lemma stored_zero s rand k :
  Spec.direction_stored s rand k ->
  s (3 * k)%nat = 0.5 -> s (3 * k + 1)%nat = 0.5 -> s (3 * k + 2)%nat = 0.5 ->
  Spec.vector_at rand k = Some (Fin 0, Fin 0, Fin 0).
Proof.
  unfold Spec.direction_stored. intros -> -> -> ->.
  replace (0.5 - 0.5) with 0 by lra.
  unfold Rdiv. now rewrite Rmult_0_l.
Qed.

Lemma stored_unit s rand k :
  Spec.direction_stored s rand k ->
  ~ (s (3 * k)%nat = 0.5 /\ s (3 * k + 1)%nat = 0.5 /\ s (3 * k + 2)%nat = 0.5) ->
  exists v, Spec.vector_at rand k = Some v /\ Spec.unit_vector v.
Proof.
  unfold Spec.direction_stored. intros -> Hnz.
  eexists. split; [reflexivity |].
  do 3 eexists. split; [reflexivity |].
  apply normalized_norm. intros (Hx & Hy & Hz). apply Hnz. lra.
Qed.

Lemma zero_not_unit : ~ Spec.unit_vector (Fin 0, Fin 0, Fin 0).
Proof.
  intros (X & Y & Z & [= <- <- <-] & Hn). unfold Spec.norm in Hn.
  replace (0 ^ 2 + 0 ^ 2 + 0 ^ 2) with 0 in Hn by ring.
  rewrite sqrt_0 in Hn. lra.
Qed.

(** C5, amended.  The direction buffer and the position buffer both have
    length 3 * count.  The direction of a particle has Euclidean length 1
    unless its three draws are all exactly 0.5, in which case the guard
    [|| 1] leaves it the zero vector. *)
Theorem useMemo_buffers_directions shape count s :
  Spec.uniform s ->
  let buffers := fst (useMemo_buffers shape count s) in
  let s' := snd (Geometry.generateParticles shape count s) in
  length (randomness buffers) = (3 * count)%nat
  /\ length (positions buffers) = (3 * count)%nat
  /\ forall k, (k < count)%nat ->
       (s' (3 * k)%nat = 0.5 /\ s' (3 * k + 1)%nat = 0.5
        /\ s' (3 * k + 2)%nat = 0.5 ->
        Spec.vector_at (randomness buffers) k = Some (Fin 0, Fin 0, Fin 0))
       /\ (~ (s' (3 * k)%nat = 0.5 /\ s' (3 * k + 1)%nat = 0.5
              /\ s' (3 * k + 2)%nat = 0.5) ->
           exists v, Spec.vector_at (randomness buffers) k = Some v
                     /\ Spec.unit_vector v).
Proof.
  intros Hs buffers s'. subst buffers. rewrite useMemo_buffers_value.
  cbn [positions randomness]. fold s'.
  destruct (randomness_loop count s') as [Hlen Hall].
  destruct (generateParticles_result shape count s Hs) as (Hpos & _ & _).
  split; [lia |]. split; [lia |].
  intros k Hk. specialize (Hall k Hk). split.
  - intros (H0 & H1 & H2). now apply (stored_zero s').
  - intros Hnz. now apply (stored_unit s').
Qed.

(** Draws left by the generator when every draw is 1/2. *)
Lemma halves_left shape count n :
  snd (Geometry.generateParticles shape count Examples.halves) n = 0.5.
Proof.
  destruct (generateParticles_result shape count Examples.halves uniform_halves)
    as (_ & _ & d & Hd).
  now rewrite Hd.
Qed.

(** C5, counterexample.  One particle of the heart when every draw is 1/2:
    the direction stored is the zero vector, whose length is not 1. *)
Lemma useMemo_buffers_zero_direction :
  Spec.vector_at
    (randomness (fst (useMemo_buffers HEART 1 Examples.halves))) 0
  = Some (Fin 0, Fin 0, Fin 0)
  /\ ~ Spec.unit_vector (Fin 0, Fin 0, Fin 0).
Proof.
  split; [| exact zero_not_unit].
  rewrite useMemo_buffers_value. cbn [randomness].
  destruct (randomness_loop 1 (snd (Geometry.generateParticles HEART 1 Examples.halves)))
    as [_ Hall].
  apply (stored_zero _ _ 0 (Hall 0%nat ltac:(lia))); apply halves_left.
Qed.

(** The buffers of two particles of the heart when every draw is 1/2: six
    components each, and zero directions. *)
Lemma useMemo_buffers_directions_witness :
  length (randomness (fst (useMemo_buffers HEART 2 Examples.halves))) = 6%nat
  /\ length (positions (fst (useMemo_buffers HEART 2 Examples.halves))) = 6%nat
  /\ Spec.vector_at
       (randomness (fst (useMemo_buffers HEART 2 Examples.halves))) 1
     = Some (Fin 0, Fin 0, Fin 0).
Proof.
  destruct (useMemo_buffers_directions HEART 2 Examples.halves uniform_halves)
    as (Hrand & Hpos & Hdir).
  split; [exact Hrand |]. split; [exact Hpos |].
  apply (Hdir 1%nat); [lia |].
  split; [| split]; apply halves_left.
Defined.

End Directions.

(* ================================================================= *)
(** ** The detection loop *)

Section Detection.

Import Vision App.

Lemma detectHands_fails handLandmarker video now :
  Spec.fails handLandmarker video now ->
  detectHands handLandmarker video now = None.
Proof.
  intros [-> | (h & e & -> & Hthrow)]; [reflexivity |].
  unfold detectHands. now rewrite Hthrow.
Qed.

(** Every run of the loop queues the next one. *)
Lemma loop_requests_frame handLandmarker videoRef now st :
  requestRef (loop handLandmarker videoRef now st)
    = Some (S (frameRequests st))
  /\ frameRequests (loop handLandmarker videoRef now st)
    = S (frameRequests st).
Proof.
  unfold loop, requestAnimationFrame_loop. cbn [requestRef frameRequests].
  destruct videoRef as [video |]; [| now split].
  destruct (2 <=? readyState video)%nat; [| now split].
  unfold loop_try.
  destruct (detectHands handLandmarker video now) as [result |]; [| now split].
  destruct (landmarks result) as [hands |]; [| now split].
  destruct (calculateGestureData result); now split.
Qed.

Lemma loop_on_failure handLandmarker video now st :
  Spec.fails handLandmarker video now ->
  (2 <= readyState video)%nat ->
  loop handLandmarker (Some video) now st
  = requestAnimationFrame_loop (setDetectedHands 0 st).
Proof.
  intros Hfail Hready. unfold loop, loop_try.
  rewrite (detectHands_fails _ _ _ Hfail).
  now destruct (Nat.leb_spec 2 (readyState video)); [| lia].
Qed.

Lemma run_failing_frames frames st :
  Forall Spec.failing_frame frames ->
  gestureRef (run frames st) = gestureRef st
  /\ frameRequests (run frames st) = (frameRequests st + length frames)%nat.
Proof.
  intros Hall. revert st.
  induction Hall as [| f frames (video & Hv & Hready & Hfail) _ IH]; intros st.
  - cbn. split; [reflexivity | lia].
  - unfold run in *. cbn [fold_left length].
    rewrite Hv, (loop_on_failure _ _ _ _ Hfail Hready).
    destruct (IH (requestAnimationFrame_loop (setDetectedHands 0 st)))
      as [Hg Hr].
    rewrite Hg, Hr. cbn. split; [reflexivity | lia].
Qed.

(** C9, amended.  When detection fails, [detectHands] returns null and
    nothing is thrown; the loop sets the hand count to 0, leaves the
    gesture mailbox as it was, writes nothing to the console, and queues
    the next run; over any sequence of failing frames the loop runs once
    per frame and the mailbox keeps its value. *)
Theorem loop_detection_failure handLandmarker video now st :
  Spec.fails handLandmarker video now ->
  (2 <= readyState video)%nat ->
  detectHands handLandmarker video now = None
  /\ detectedHands (loop handLandmarker (Some video) now st) = 0%nat
  /\ gestureRef (loop handLandmarker (Some video) now st) = gestureRef st
  /\ console (loop handLandmarker (Some video) now st) = console st
  /\ requestRef (loop handLandmarker (Some video) now st)
     = Some (S (frameRequests st))
  /\ forall frames,
       Forall Spec.failing_frame frames ->
       gestureRef (run frames st) = gestureRef st
       /\ frameRequests (run frames st)
          = (frameRequests st + length frames)%nat.
Proof.
  intros Hfail Hready.
  split; [now apply detectHands_fails |].
  rewrite (loop_on_failure _ _ _ _ Hfail Hready).
  repeat (split; [reflexivity |]).
  intros frames. apply run_failing_frames.
Qed.

(** C9, counterexample.  From the state in which two spread hands are
    tracked, a frame on which [detectForVideo] throws leaves the gesture
    mailbox at expansion 1, while a frame with zero hands resets it to
    expansion 0 and lift 0.5: the failed frame is not handled as a
    zero-hands frame. *)
Lemma loop_failure_keeps_gesture :
  Spec.fails (Some Examples.failing_detector) Examples.ready_video (Fin 0)
  /\ gestureRef (loop (Some Examples.failing_detector)
                      (Some Examples.ready_video) (Fin 0) Examples.tracking)
     = {| expansion := Fin 1; lift := Fin 0.3 |}
  /\ gestureRef (loop (Some Examples.blind_detector)
                      (Some Examples.ready_video) (Fin 0) Examples.tracking)
     = {| expansion := Fin 0; lift := Fin 0.5 |}
  /\ loop (Some Examples.failing_detector)
          (Some Examples.ready_video) (Fin 0) Examples.tracking
     <> loop (Some Examples.blind_detector)
             (Some Examples.ready_video) (Fin 0) Examples.tracking.
Proof.
  split; [right; now exists Examples.failing_detector, "detectForVideo failed"%string |].
  split; [reflexivity |]. split; [reflexivity |].
  intros Heq. apply (f_equal gestureRef) in Heq. cbn in Heq.
  injection Heq as He Hl. lra.
Qed.

(** A frame on which [detectForVideo] throws, met while two hands are
    tracked. *)
Lemma loop_detection_failure_witness :
  detectHands (Some Examples.failing_detector) Examples.ready_video (Fin 0)
    = None
  /\ detectedHands (loop (Some Examples.failing_detector)
                         (Some Examples.ready_video) (Fin 0) Examples.tracking)
     = 0%nat
  /\ requestRef (loop (Some Examples.failing_detector)
                      (Some Examples.ready_video) (Fin 0) Examples.tracking)
     = Some 8%nat.
Proof.
  assert (Hfail : Spec.fails (Some Examples.failing_detector)
                             Examples.ready_video (Fin 0)).
  { right. now exists Examples.failing_detector, "detectForVideo failed"%string. }
  assert (Hready : (2 <= readyState Examples.ready_video)%nat) by (cbn; lia).
  destruct (loop_detection_failure (Some Examples.failing_detector)
              Examples.ready_video (Fin 0) Examples.tracking Hfail Hready)
    as (Hnull & Hcount & _ & _ & Hreq & _).
  split; [exact Hnull |]. split; [exact Hcount | exact Hreq].
Defined.

End Detection.

(* ================================================================= *)
(** ** Where the particles are *)

Section Placement.

Import Geometry.

Lemma vector_at_setPoint (positions : list number) i X Y Z :
  (3 * i + 2 < length positions)%nat ->
  Rabs X <= 64 -> Rabs Y <= 64 -> Rabs Z <= 64 ->
  Spec.vector_at (setPoint positions i (Fin X) (Fin Y) (Fin Z)) i
  = Some (Fin X, Fin Y, Fin Z).
Proof.
  intros Hlen HX HY HZ. unfold setPoint, set_index.
  rewrite !Math_fround_small by (eexists; split; [reflexivity | assumption]).
  now apply triple_insert_lookup.
Qed.

Lemma vector_at_setPoint_other (positions : list number) i k X Y Z :
  k <> i ->
  Spec.vector_at (setPoint positions i X Y Z) k = Spec.vector_at positions k.
Proof.
  intros Hne. unfold setPoint, set_index. now apply triple_insert_other.
Qed.

(** If the body of the loop places particle [i] in [P i], whatever the
    buffer and the random source, every particle of the buffer returned
    lies in the region of its index. *)
Lemma generateParticles_pointwise shape count
    (P : nat -> R -> R -> R -> Prop) s :
  Spec.uniform s ->
  (forall i positions s0,
      (i < count)%nat -> Spec.uniform s0 ->
      Regions.places (P i) positions i s0
        (generateParticles_body shape count i positions s0)) ->
  Regions.every_particle P count (fst (generateParticles shape count s)).
Proof.
  intros Hs Hbody.
  pose (Inv := fun (k : nat) (positions : list number) (s0 : rng) =>
                 length positions = (count * 3)%nat
                 /\ Spec.suffix s s0
                 /\ Regions.every_particle P k positions).
  assert (Hend : Inv count
            (fst (for_loop count (0 * 1) 1 (count * 1)
                    (generateParticles_body shape count)
                    (new_Float32Array (count * 3)) s))
            (snd (for_loop count (0 * 1) 1 (count * 1)
                    (generateParticles_body shape count)
                    (new_Float32Array (count * 3)) s))).
  { apply (for_loop_counted Inv 1 count); [lia | | lia | lia |].
    - intros k positions s0 Hk (Hlen & Hsuf & Hdone).
      rewrite Nat.mul_1_r.
      destruct (Hbody k positions s0 Hk (suffix_uniform s s0 Hsuf Hs))
        as (X & Y & Z & s' & -> & HP & HX & HY & HZ & Hs').
      cbn [fst snd]. split; [| split].
      + now rewrite setPoint_length.
      + now apply suffix_trans with s0.
      + intros k' Hk'. destruct (Nat.eq_dec k' k) as [-> | Hne].
        * exists X, Y, Z. split; [| exact HP].
          apply vector_at_setPoint; [lia | assumption ..].
        * rewrite vector_at_setPoint_other by assumption.
          apply Hdone. lia.
    - split; [apply new_Float32Array_finite |].
      split; [apply suffix_refl | intros k' Hk'; lia]. }
  destruct Hend as (_ & _ & Hall).
  unfold generateParticles.
  replace (count * 1)%nat with count in Hall by lia. exact Hall.
Qed.

End Placement.

(** The random source left by a case: a suffix of the one given. *)
Ltac is_suffix :=
  first [ solve [exists 0%nat; intros ?; reflexivity]
        | solve [exists 1%nat; intros ?; reflexivity]
        | solve [exists 2%nat; intros ?; reflexivity]
        | solve [exists 3%nat; intros ?; reflexivity]
        | solve [exists 4%nat; intros ?; reflexivity]
        | solve [exists 5%nat; intros ?; reflexivity]
        | solve [exists 6%nat; intros ?; reflexivity]
        | solve [exists 7%nat; intros ?; reflexivity]
        | solve [exists 8%nat; intros ?; reflexivity] ].

(** Names every sine and cosine of the goal, keeping its range and, for a
    sine, the identity that ties it to the cosine of the same angle. *)
Ltac name_trig :=
  repeat match goal with
         | |- context [sin ?a] =>
             lazymatch goal with
             | _ : sin a * sin a + cos a * cos a = 1 |- _ => fail
             | _ => pose proof (sin_cos_square a)
             end
         end;
  repeat match goal with
         | |- context [sin ?a] =>
             let v := fresh "sn" in
             pose proof (SIN_bound a); set (v := sin a) in *; clearbody v
         | |- context [cos ?a] =>
             let v := fresh "cs" in
             pose proof (COS_bound a); set (v := cos a) in *; clearbody v
         end.

(** Runs a case to its calls of [setPoint], one goal for each path. *)
Ltac each_path :=
  run_case; in_domain; run_case;
  repeat (match goal with
          | |- context [if ?c then _ else _] => destruct c
          end; run_case; in_domain; run_case).

(** A branch places its point: the region by [region], the magnitudes by
    [bound]. *)
Ltac placed region :=
  do 4 eexists;
  split;
  [ reflexivity
  | split;
    [ region
    | split; [eapply Rle_trans; [bound | lra] |];
      split; [eapply Rle_trans; [bound | lra] |];
      split; [eapply Rle_trans; [bound | lra] | is_suffix] ] ].

Section Shapes.

Import Geometry.

Lemma cube_unit v : -1 <= v <= 1 -> -1 <= v ^ 3 <= 1.
Proof.
  intros Hv. assert (H2 : 0 <= v * v <= 1) by nra.
  replace (v ^ 3) with (v * (v * v)) by ring. nra.
Qed.

Lemma case_HEART_places positions i s :
  Spec.uniform s ->
  Regions.places Regions.heart_box positions i s (case_HEART positions i s).
Proof.
  intros Hs. draws Hs. unfold case_HEART.
  each_path;
    placed ltac:(unfold Regions.heart_box; name_trig;
                 match goal with
                 | Hsn : -1 <= ?v <= 1 |- context [?v ^ 3] =>
                     pose proof (cube_unit v Hsn);
                     set (c := v ^ 3) in *; clearbody c
                 end;
                 repeat split; apply Rabs_le; split; nra).
Qed.

Lemma default_places positions i s :
  Regions.places Regions.origin positions i s
    (setPoint positions i (Fin 0) (Fin 0) (Fin 0), s).
Proof.
  exists 0, 0, 0, s. split; [reflexivity |].
  split; [now repeat split |].
  rewrite Rabs_R0. repeat (split; [lra |]). apply suffix_refl.
Qed.

Lemma sqrt_unit a : 0 <= a <= 1 -> 0 <= sqrt a <= 1.
Proof.
  intros Ha. split; [apply sqrt_pos |].
  rewrite <- sqrt_1. apply sqrt_le_1_alt. lra.
Qed.

(** A point at distance [d] from the vertical axis. *)
Lemma around_axis c sn d : sn * sn + c * c = 1 -> (c * d) ^ 2 + (sn * d) ^ 2 = d * d.
Proof.
  intros H. transitivity (d * d * (sn * sn + c * c)); [ring |].
  rewrite H. ring.
Qed.

Lemma around_axis_l c sn d :
  sn * sn + c * c = 1 -> (d * c) ^ 2 + (d * sn) ^ 2 = d * d.
Proof.
  intros H. transitivity (d * d * (sn * sn + c * c)); [ring |].
  rewrite H. ring.
Qed.

Lemma case_SATURN_places positions i s :
  Spec.uniform s ->
  Regions.places
    (fun X Y Z => Regions.saturn_ring X Y Z \/ Regions.saturn_body X Y Z)
    positions i s (case_SATURN positions i s).
Proof.
  intros Hs. draws Hs. unfold case_SATURN. each_path.
  - placed ltac:(left; unfold Regions.saturn_ring; name_trig).
    rewrite around_axis by assumption.
    split; [nra | apply Rabs_le; lra].
  - placed ltac:(right; unfold Regions.saturn_body).
    pose proof (scaled_radius 1.8 (s 3%nat) ltac:(lra) ltac:(assumption)).
    rewrite spherical_norm; lra.
Qed.

Lemma case_TREE_places positions i s :
  Spec.uniform s ->
  Regions.places
    (fun X Y Z => Regions.tree_star X Y Z \/ Regions.tree_cone X Y Z)
    positions i s (case_TREE positions i s).
Proof.
  intros Hs. draws Hs. unfold case_TREE. each_path.
  - placed ltac:(left; unfold Regions.tree_star).
    pose proof (scaled_radius 0.3 (s 3%nat) ltac:(lra) ltac:(assumption)).
    match goal with
    | |- Spec.norm _ (?a + 2.2 - 2.2) _ <= _ =>
        replace (a + 2.2 - 2.2) with a by ring
    end.
    rewrite spherical_norm; lra.
  - placed ltac:(right; unfold Regions.tree_cone).
    pose proof (sqrt_unit (s 2%nat) ltac:(lra)).
    set (q := sqrt (s 2%nat)) in *. clearbody q.
    name_trig. split; [lra |].
    rewrite around_axis_l by assumption.
    assert (Hm : 0 <= (1.0 - s 1%nat) * 1.8) by lra.
    assert (Hr : 0 <= q * ((1.0 - s 1%nat) * 1.8) <= (1.0 - s 1%nat) * 1.8)
      by nra.
    nra.
Qed.

Lemma case_ROSE_places positions i s :
  Spec.uniform s ->
  Regions.places
    (fun X Y Z => Regions.rose_stem X Y Z \/ Regions.rose_bloom X Y Z)
    positions i s (case_ROSE positions i s).
Proof.
  intros Hs. draws Hs. unfold case_ROSE. each_path.
  - placed ltac:(left; unfold Regions.rose_stem; name_trig;
                 split; [lra |]; split; apply Rabs_le; split; nra).
  - placed ltac:(left; unfold Regions.rose_stem; name_trig;
                 split; [lra |]; split; apply Rabs_le; split; nra).
  - placed ltac:(right; unfold Regions.rose_bloom; name_trig).
    split; [lra |]. rewrite around_axis_l by assumption.
    assert (Hp : -0.2 <= sn * 0.2 * s 1%nat <= 0.2) by nra.
    nra.
Qed.

Lemma half_turn_cos a : 0 <= a < 1 -> 0 <= cos ((a - 0.5) * PI).
Proof.
  intros Ha. pose proof PI_RGT_0. apply cos_ge_0; nra.
Qed.

(** Keeps, of a cosine over the right half turn, that it is not negative. *)
Ltac right_half :=
  repeat match goal with
         | |- context [cos ((?a - 0.5) * PI)] =>
             lazymatch goal with
             | _ : 0 <= cos ((a - 0.5) * PI) |- _ => fail
             | _ => pose proof (half_turn_cos a ltac:(lra))
             end
         end.

Lemma letter_D_places positions i s :
  Spec.uniform s ->
  Regions.places Regions.letter_D_box positions i s (letter_D positions i s).
Proof.
  intros Hs. draws Hs. unfold letter_D. each_path;
    placed ltac:(unfold Regions.letter_D_box; right_half; name_trig;
                 try match goal with
                     | |- context [Rmax ?a ?b] =>
                         unfold Rmax; destruct (Rle_dec a b)
                     end;
                 (split; [split; nra | split; apply Rabs_le; split; nra])).
Qed.

Lemma strict_eq_int z k :
  strict_eq (Fin (IZR z)) (Fin (IZR k)) = (z =? k)%Z.
Proof.
  unfold strict_eq. destruct (Req_dec_T (IZR z) (IZR k)) as [He | Hne].
  - apply eq_IZR in He. subst. now rewrite Z.eqb_refl.
  - destruct (Z.eqb_spec z k) as [-> | _]; [contradiction | reflexivity].
Qed.

(** The side drawn for the outline of the letter L is one of 0, ..., 5. *)
Lemma side_range d : 0 <= d < 1 -> (0 <= Int_part (d * 6) <= 5)%Z.
Proof.
  intros Hd. destruct (base_Int_part (d * 6)) as [Hle Hgt].
  assert (Hlo : (-1 < Int_part (d * 6))%Z) by (apply lt_IZR; lra).
  assert (Hhi : (Int_part (d * 6) < 6)%Z) by (apply lt_IZR; lra).
  lia.
Qed.

Lemma letter_L_places positions i s :
  Spec.uniform s ->
  Regions.places Regions.letter_L_box positions i s (letter_L positions i s).
Proof.
  intros Hs. draws Hs. unfold letter_L. run_case.
  destruct (lt _ _).
  - run_case. rewrite !strict_eq_int.
    pose proof (side_range (s 1%nat) ltac:(lra)) as Hside.
    assert (Hz : Int_part (s 1%nat * 6) = 0%Z \/ Int_part (s 1%nat * 6) = 1%Z
                 \/ Int_part (s 1%nat * 6) = 2%Z \/ Int_part (s 1%nat * 6) = 3%Z
                 \/ Int_part (s 1%nat * 6) = 4%Z \/ Int_part (s 1%nat * 6) = 5%Z)
      by lia.
    destruct Hz as [Hz | [Hz | [Hz | [Hz | [Hz | Hz]]]]];
      rewrite Hz; cbn [Z.eqb Pos.eqb]; run_case;
      placed ltac:(unfold Regions.letter_L_box;
                   split; [split; nra |]; split; apply Rabs_le; split; nra).
  - each_path;
      placed ltac:(unfold Regions.letter_L_box;
                   split; [split; nra |]; split; apply Rabs_le; split; nra).
Qed.

Lemma case_DL_places count positions i s :
  Spec.uniform s ->
  Regions.places (Regions.letter_box count i) positions i s
    (case_DL count positions i s).
Proof.
  intros Hs. unfold case_DL, Regions.letter_box.
  rewrite div_Fin by lra.
  destruct (Nat.ltb_spec (2 * i) count) as [Hlt | Hge].
  - rewrite lt_Fin_true by now apply first_half.
    now apply letter_D_places.
  - rewrite lt_Fin_false.
    + now apply letter_L_places.
    + apply le_INR in Hge. rewrite mult_INR in Hge. cbn in Hge. lra.
Qed.

Lemma body_HEART count i positions s :
  generateParticles_body HEART count i positions s = case_HEART positions i s.
Proof. reflexivity. Qed.

Lemma body_ROSE count i positions s :
  generateParticles_body ROSE count i positions s = case_ROSE positions i s.
Proof. reflexivity. Qed.

Lemma body_SATURN count i positions s :
  generateParticles_body SATURN count i positions s = case_SATURN positions i s.
Proof. reflexivity. Qed.

Lemma body_DL count i positions s :
  generateParticles_body DL count i positions s = case_DL count positions i s.
Proof. reflexivity. Qed.

Lemma body_TREE count i positions s :
  generateParticles_body TREE count i positions s = case_TREE positions i s.
Proof. reflexivity. Qed.

Lemma body_default shape count i positions s :
  shape <> HEART -> shape <> ROSE -> shape <> SATURN -> shape <> DL ->
  shape <> TREE ->
  generateParticles_body shape count i positions s
  = (setPoint positions i (Fin 0) (Fin 0) (Fin 0), s).
Proof.
  intros H1 H2 H3 H4 H5. unfold generateParticles_body.
  apply String.eqb_neq in H1, H2, H3, H4, H5.
  now rewrite H1, H2, H3, H4, H5.
Qed.

(** Every particle of the heart lies in the box 2.64 by 3.465 by 0.6
    around the origin. *)
Theorem heart_in_box count s :
  Spec.uniform s ->
  Regions.every_particle (fun _ => Regions.heart_box) count
    (fst (generateParticles HEART count s)).
Proof.
  intros Hs. apply generateParticles_pointwise; [assumption |].
  intros i positions s0 _ Hs0. rewrite body_HEART.
  now apply case_HEART_places.
Qed.

Lemma heart_in_box_witness :
  Regions.every_particle (fun _ => Regions.heart_box) 2
    (fst (generateParticles HEART 2 Examples.halves)).
Proof. exact (heart_in_box 2 Examples.halves uniform_halves). Defined.

(** Every particle of Saturn lies either in the flat ring between the
    radii 3 and 5 or in the ball of radius 1.8: nothing is placed in the
    gap between planet and ring. *)
Theorem saturn_ring_or_body count s :
  Spec.uniform s ->
  Regions.every_particle
    (fun _ X Y Z => Regions.saturn_ring X Y Z \/ Regions.saturn_body X Y Z)
    count (fst (generateParticles SATURN count s)).
Proof.
  intros Hs. apply generateParticles_pointwise; [assumption |].
  intros i positions s0 _ Hs0. rewrite body_SATURN.
  now apply case_SATURN_places.
Qed.

Lemma saturn_ring_or_body_witness :
  Regions.every_particle
    (fun _ X Y Z => Regions.saturn_ring X Y Z \/ Regions.saturn_body X Y Z)
    2 (fst (generateParticles SATURN 2 Examples.halves)).
Proof. exact (saturn_ring_or_body 2 Examples.halves uniform_halves). Defined.

(** Every particle of the tree lies either in the star, within 0.3 of
    (0, 2.2, 0), or in the cone between the heights -2 and 2 whose radius
    shrinks linearly from 1.8 to 0, widened by the spiral offset 0.1. *)
Theorem tree_star_or_cone count s :
  Spec.uniform s ->
  Regions.every_particle
    (fun _ X Y Z => Regions.tree_star X Y Z \/ Regions.tree_cone X Y Z)
    count (fst (generateParticles TREE count s)).
Proof.
  intros Hs. apply generateParticles_pointwise; [assumption |].
  intros i positions s0 _ Hs0. rewrite body_TREE.
  now apply case_TREE_places.
Qed.

Lemma tree_star_or_cone_witness :
  Regions.every_particle
    (fun _ X Y Z => Regions.tree_star X Y Z \/ Regions.tree_cone X Y Z)
    2 (fst (generateParticles TREE 2 Examples.halves)).
Proof. exact (tree_star_or_cone 2 Examples.halves uniform_halves). Defined.

(** Every particle of the rose lies either in the stem, below the height
    -1.5 and within 0.38 by 0.28 of the axis, or in the bloom, between the
    heights -1.5 and 1.5 and within 1.7 of the axis. *)
Theorem rose_stem_or_bloom count s :
  Spec.uniform s ->
  Regions.every_particle
    (fun _ X Y Z => Regions.rose_stem X Y Z \/ Regions.rose_bloom X Y Z)
    count (fst (generateParticles ROSE count s)).
Proof.
  intros Hs. apply generateParticles_pointwise; [assumption |].
  intros i positions s0 _ Hs0. rewrite body_ROSE.
  now apply case_ROSE_places.
Qed.

Lemma rose_stem_or_bloom_witness :
  Regions.every_particle
    (fun _ X Y Z => Regions.rose_stem X Y Z \/ Regions.rose_bloom X Y Z)
    2 (fst (generateParticles ROSE 2 Examples.halves)).
Proof. exact (rose_stem_or_bloom 2 Examples.halves uniform_halves). Defined.

(** In the lettering, the particles of the first half of the buffer lie in
    the box of the letter D and the others in the box of the letter L; the
    first box is left of [X = -0.4] and the second right of [X = 0.95], so
    the letters do not overlap. *)
Theorem letters_in_boxes count s :
  Spec.uniform s ->
  Regions.every_particle (Regions.letter_box count) count
    (fst (generateParticles DL count s))
  /\ (forall X Y Z X' Y' Z',
        Regions.letter_D_box X Y Z -> Regions.letter_L_box X' Y' Z' ->
        X + 1.35 <= X').
Proof.
  intros Hs. split.
  - apply generateParticles_pointwise; [assumption |].
    intros i positions s0 _ Hs0. rewrite body_DL.
    now apply case_DL_places.
  - unfold Regions.letter_D_box, Regions.letter_L_box.
    intros X Y Z X' Y' Z' [HD _] [HL _]. lra.
Qed.

Lemma letters_in_boxes_witness :
  Regions.every_particle (Regions.letter_box 4) 4
    (fst (generateParticles DL 4 Examples.halves)).
Proof. exact (proj1 (letters_in_boxes 4 Examples.halves uniform_halves)). Defined.

(** A selector that is none of the five shapes puts every particle at the
    origin and draws nothing from the random source. *)
Theorem unknown_shape_at_origin shape count s :
  shape <> HEART -> shape <> ROSE -> shape <> SATURN -> shape <> DL ->
  shape <> TREE ->
  Regions.every_particle (fun _ => Regions.origin) count
    (fst (generateParticles shape count s))
  /\ snd (generateParticles shape count s) = s.
Proof.
  intros H1 H2 H3 H4 H5. split.
  - pose (Inv := fun (k : nat) (positions : list number) (s0 : rng) =>
                   length positions = (count * 3)%nat
                   /\ Regions.every_particle (fun _ => Regions.origin) k
                        positions).
    assert (Hend : Inv count
              (fst (for_loop count (0 * 1) 1 (count * 1)
                      (generateParticles_body shape count)
                      (new_Float32Array (count * 3)) s))
              (snd (for_loop count (0 * 1) 1 (count * 1)
                      (generateParticles_body shape count)
                      (new_Float32Array (count * 3)) s))).
    { apply (for_loop_counted Inv 1 count); [lia | | lia | lia |].
      - intros k positions s0 Hk (Hlen & Hdone).
        rewrite Nat.mul_1_r, body_default by assumption.
        cbn [fst snd]. split; [now rewrite setPoint_length |].
        intros k' Hk'. destruct (Nat.eq_dec k' k) as [-> | Hne].
        + exists 0, 0, 0. split; [| now repeat split].
          apply vector_at_setPoint; rewrite ?Rabs_R0; try lra. lia.
        + rewrite vector_at_setPoint_other by assumption.
          apply Hdone. lia.
      - split; [apply new_Float32Array_finite | intros k' Hk'; lia]. }
    destruct Hend as [_ Hall]. unfold generateParticles.
    replace (count * 1)%nat with count in Hall by lia. exact Hall.
  - unfold generateParticles.
    apply (for_loop_invariant (fun _ s0 => s0 = s)); [| reflexivity].
    intros j positions s0 ->. now rewrite body_default.
Qed.

Lemma unknown_shape_at_origin_witness :
  Regions.every_particle (fun _ => Regions.origin) 3
    (fst (generateParticles "CUBE"%string 3 Examples.halves))
  /\ snd (generateParticles "CUBE"%string 3 Examples.halves) = Examples.halves.
Proof.
  apply unknown_shape_at_origin; discriminate.
Defined.

End Shapes.

(* ================================================================= *)
(** ** The gesture calculator: errors and symmetries *)

Section GestureLaws.

Import Vision.

(** Whatever the landmarks hold, infinities included, the expansion
    returned is either a number of [0, 1] or NaN. *)
Theorem expansion_clamped_or_NaN (result : HandLandmarkerResult)
    (g : GestureData) :
  calculateGestureData result = Normal g ->
  expansion g = NaN \/ Spec.in_unit (expansion g).
Proof. exact (expansion_range_any result g). Qed.

Lemma expansion_clamped_or_NaN_witness :
  expansion {| expansion := Fin 0; lift := Fin 2 |} = NaN
  \/ Spec.in_unit (expansion {| expansion := Fin 0; lift := Fin 2 |}).
Proof.
  exact (expansion_clamped_or_NaN Examples.hand_below_frame _
           hand_below_frame_value).
Defined.

Lemma NaN_sub_l b : sub NaN b = NaN.
Proof. now destruct b. Qed.

Lemma NaN_sub_r a : sub a NaN = NaN.
Proof. now destruct a. Qed.

Lemma NaN_mul a : mul NaN a = NaN.
Proof. now destruct a. Qed.

Lemma NaN_add_l b : add NaN b = NaN.
Proof. now destruct b. Qed.

Lemma NaN_add_r a : add a NaN = NaN.
Proof. now destruct a as [r | [|] |]. Qed.

Lemma NaN_div b : div NaN b = NaN.
Proof. now destruct b. Qed.

(** The clamp does not catch NaN: with two hands, a NaN coordinate of a
    wrist makes the expansion NaN. *)
Theorem two_hands_NaN (w1 w2 : NormalizedLandmark)
    (rest1 rest2 : list NormalizedLandmark) :
  x w1 = NaN \/ y w1 = NaN \/ x w2 = NaN \/ y w2 = NaN ->
  exists g,
    calculateGestureData {| landmarks := Some [w1 :: rest1; w2 :: rest2] |}
      = Normal g
    /\ expansion g = NaN.
Proof.
  intros HNaN. eexists. split; [reflexivity |]. cbn [expansion].
  assert (Hsum : add (mul (sub (x w1) (x w2)) (sub (x w1) (x w2)))
                     (mul (sub (y w1) (y w2)) (sub (y w1) (y w2))) = NaN).
  { destruct HNaN as [H | [H | [H | H]]]; rewrite H;
      rewrite ?NaN_sub_l, ?NaN_sub_r, ?NaN_mul, ?NaN_add_l, ?NaN_add_r;
      reflexivity. }
  rewrite Hsum. reflexivity.
Qed.

Lemma two_hands_NaN_witness :
  exists g,
    calculateGestureData
      {| landmarks :=
           Some [ {| x := NaN; y := Fin 0.5; z := Fin 0 |} :: [];
                  Examples.landmark 0.6 0.5 :: [] ] |}
      = Normal g
    /\ expansion g = NaN.
Proof.
  apply two_hands_NaN. now left.
Defined.

(** A [TypeError] is thrown exactly when a landmark that is read is
    missing: with one hand, when the hand has fewer than 21 landmarks; with
    two hands, when one of them has none. *)
Theorem calculateGestureData_TypeError :
  (forall hand,
      calculateGestureData {| landmarks := Some [hand] |} = Throw "TypeError"
      <-> (length hand < 21)%nat)
  /\ (forall hand1 hand2,
        calculateGestureData {| landmarks := Some [hand1; hand2] |}
          = Throw "TypeError"
        <-> hand1 = [] \/ hand2 = []).
Proof.
  split.
  - intros hand. unfold calculateGestureData.
    cbn [landmarks length Nat.eqb element bind lookup list_lookup].
    unfold element. split.
    + intros Hthrow.
      destruct (Nat.lt_ge_cases (length hand) 21) as [Hlt | Hge];
        [assumption | exfalso].
      destruct (lookup_lt_is_Some_2 hand 4 ltac:(lia)) as [p4 H4].
      destruct (lookup_lt_is_Some_2 hand 20 ltac:(lia)) as [p20 H20].
      destruct (lookup_lt_is_Some_2 hand 0 ltac:(lia)) as [p0 H0].
      destruct (lookup_lt_is_Some_2 hand 9 ltac:(lia)) as [p9 H9].
      rewrite H4, H20, H0, H9 in Hthrow. discriminate.
    + intros Hlt.
      rewrite (lookup_ge_None_2 hand 20) by lia.
      now destruct (hand !! 4%nat).
  - intros hand1 hand2. unfold calculateGestureData.
    cbn [landmarks length Nat.eqb element bind lookup list_lookup].
    destruct hand1 as [| w1 rest1], hand2 as [| w2 rest2]; cbn; split;
      try (intros _; auto; fail); try discriminate.
    intros [H | H]; discriminate.
Qed.

Lemma distance_sym x1 y1 x2 y2 :
  Spec.distance x1 y1 x2 y2 = Spec.distance x2 y2 x1 y1.
Proof.
  unfold Spec.distance.
  now replace ((x2 - x1) ^ 2 + (y2 - y1) ^ 2)
    with ((x1 - x2) ^ 2 + (y1 - y2) ^ 2) by ring.
Qed.

(** The order of the two hands does not matter. *)
Theorem two_hands_swap (w1 w2 : NormalizedLandmark)
    (rest1 rest2 : list NormalizedLandmark) (x1 y1 x2 y2 : R) :
  x w1 = Fin x1 -> y w1 = Fin y1 -> x w2 = Fin x2 -> y w2 = Fin y2 ->
  calculateGestureData {| landmarks := Some [w1 :: rest1; w2 :: rest2] |}
  = calculateGestureData {| landmarks := Some [w2 :: rest2; w1 :: rest1] |}.
Proof.
  intros Hx1 Hy1 Hx2 Hy2.
  rewrite (two_hands_value w1 w2 rest1 rest2 x1 y1 x2 y2) by assumption.
  rewrite (two_hands_value w2 w1 rest2 rest1 x2 y2 x1 y1) by assumption.
  rewrite (distance_sym x1 y1 x2 y2).
  now replace ((y2 + y1) / 2) with ((y1 + y2) / 2) by lra.
Qed.

Lemma two_hands_swap_witness :
  calculateGestureData Examples.wrists_apart
  = calculateGestureData
      {| landmarks :=
           Some [Examples.point_hand 0.6 0.5; Examples.point_hand 0.1 0.5] |}.
Proof.
  exact (two_hands_swap (Examples.landmark 0.1 0.5) (Examples.landmark 0.6 0.5)
           (replicate 20 (Examples.landmark 0.1 0.5))
           (replicate 20 (Examples.landmark 0.6 0.5))
           0.1 0.5 0.6 0.5 eq_refl eq_refl eq_refl eq_refl).
Defined.

Lemma clamp_monotone v v' :
  v <= v' -> Spec.clamp v 0 1 <= Spec.clamp v' 0 1.
Proof.
  intros H. unfold Spec.clamp.
  destruct (Rlt_dec v 0), (Rlt_dec 1 v), (Rlt_dec v' 0), (Rlt_dec 1 v'); lra.
Qed.

(** With two hands, the expansion does not decrease when the wrists move
    apart. *)
Theorem two_hands_monotone (w1 w2 w1' w2' : NormalizedLandmark)
    (rest1 rest2 rest1' rest2' : list NormalizedLandmark)
    (x1 y1 x2 y2 x1' y1' x2' y2' : R) :
  x w1 = Fin x1 -> y w1 = Fin y1 -> x w2 = Fin x2 -> y w2 = Fin y2 ->
  x w1' = Fin x1' -> y w1' = Fin y1' -> x w2' = Fin x2' -> y w2' = Fin y2' ->
  Spec.distance x1 y1 x2 y2 <= Spec.distance x1' y1' x2' y2' ->
  exists g g' e e',
    calculateGestureData {| landmarks := Some [w1 :: rest1; w2 :: rest2] |}
      = Normal g
    /\ calculateGestureData
         {| landmarks := Some [w1' :: rest1'; w2' :: rest2'] |}
       = Normal g'
    /\ expansion g = Fin e /\ expansion g' = Fin e' /\ e <= e'.
Proof.
  intros Hx1 Hy1 Hx2 Hy2 Hx1' Hy1' Hx2' Hy2' Hd.
  rewrite (two_hands_value w1 w2 rest1 rest2 x1 y1 x2 y2) by assumption.
  rewrite (two_hands_value w1' w2' rest1' rest2' x1' y1' x2' y2')
    by assumption.
  do 4 eexists. repeat (split; [reflexivity |]).
  apply clamp_monotone. unfold Spec.rescale.
  apply Rmult_le_compat_r; [| lra].
  left. apply Rinv_0_lt_compat. lra.
Qed.

Lemma two_hands_monotone_witness :
  exists g g' e e',
    calculateGestureData
      {| landmarks := Some [Examples.point_hand 0.3 0.5;
                            Examples.point_hand 0.5 0.5] |} = Normal g
    /\ calculateGestureData Examples.wrists_apart = Normal g'
    /\ expansion g = Fin e /\ expansion g' = Fin e' /\ e <= e'.
Proof.
  apply (two_hands_monotone
           (Examples.landmark 0.3 0.5) (Examples.landmark 0.5 0.5)
           (Examples.landmark 0.1 0.5) (Examples.landmark 0.6 0.5)
           (replicate 20 (Examples.landmark 0.3 0.5))
           (replicate 20 (Examples.landmark 0.5 0.5))
           (replicate 20 (Examples.landmark 0.1 0.5))
           (replicate 20 (Examples.landmark 0.6 0.5))
           0.3 0.5 0.5 0.5 0.1 0.5 0.6 0.5);
    try reflexivity.
  rewrite !distance_horizontal by lra. lra.
Defined.

Lemma distance_scaled a b c x1 y1 x2 y2 :
  0 <= c ->
  Spec.distance (a + c * (x1 - a)) (b + c * (y1 - b))
                (a + c * (x2 - a)) (b + c * (y2 - b))
  = c * Spec.distance x1 y1 x2 y2.
Proof.
  intros Hc. unfold Spec.distance.
  replace ((a + c * (x1 - a) - (a + c * (x2 - a))) ^ 2
           + (b + c * (y1 - b) - (b + c * (y2 - b))) ^ 2)
    with (c * c * ((x1 - x2) ^ 2 + (y1 - y2) ^ 2)) by ring.
  rewrite sqrt_mult;
    [ now rewrite sqrt_square
    | nra
    | apply Rplus_le_le_0_compat; apply pow2_ge_0 ].
Qed.

(** With one hand, the expansion is a property of the hand's shape: a hand
    enlarged or shrunk by any factor [c > 0] about any centre [(a, b)], as
    when it moves toward or away from the camera, gives the same
    expansion, provided the wrist and the middle-finger base differ. *)
Theorem one_hand_scale_invariant (hand hand' : list NormalizedLandmark)
    (thumbTip pinkyTip wrist middleMCP : NormalizedLandmark)
    (thumbTip' pinkyTip' wrist' middleMCP' : NormalizedLandmark)
    (tx ty px py wx wy mx my a b c : R) :
  hand !! 4%nat = Some thumbTip -> hand !! 20%nat = Some pinkyTip ->
  hand !! 0%nat = Some wrist -> hand !! 9%nat = Some middleMCP ->
  hand' !! 4%nat = Some thumbTip' -> hand' !! 20%nat = Some pinkyTip' ->
  hand' !! 0%nat = Some wrist' -> hand' !! 9%nat = Some middleMCP' ->
  x thumbTip = Fin tx -> y thumbTip = Fin ty ->
  x pinkyTip = Fin px -> y pinkyTip = Fin py ->
  x wrist = Fin wx -> y wrist = Fin wy ->
  x middleMCP = Fin mx -> y middleMCP = Fin my ->
  x thumbTip' = Fin (a + c * (tx - a)) -> y thumbTip' = Fin (b + c * (ty - b)) ->
  x pinkyTip' = Fin (a + c * (px - a)) -> y pinkyTip' = Fin (b + c * (py - b)) ->
  x wrist' = Fin (a + c * (wx - a)) -> y wrist' = Fin (b + c * (wy - b)) ->
  x middleMCP' = Fin (a + c * (mx - a)) ->
  y middleMCP' = Fin (b + c * (my - b)) ->
  0 < c -> Spec.distance mx my wx wy <> 0 ->
  exists g g',
    calculateGestureData {| landmarks := Some [hand] |} = Normal g
    /\ calculateGestureData {| landmarks := Some [hand'] |} = Normal g'
    /\ expansion g' = expansion g.
Proof.
  intros H4 H20 H0 H9 H4' H20' H0' H9'
         Htx Hty Hpx Hpy Hwx Hwy Hmx Hmy
         Htx' Hty' Hpx' Hpy' Hwx' Hwy' Hmx' Hmy' Hc Hsize.
  rewrite (one_hand_value hand thumbTip pinkyTip wrist middleMCP
             tx ty px py wx wy mx my) by assumption.
  rewrite (one_hand_value hand' thumbTip' pinkyTip' wrist' middleMCP'
             _ _ _ _ _ _ _ _ H4' H20' H0' H9'
             Htx' Hty' Hpx' Hpy' Hwx' Hwy' Hmx' Hmy').
  do 2 eexists. split; [reflexivity |]. split; [reflexivity |].
  cbn [expansion]. rewrite !distance_scaled by lra.
  unfold Spec.guarded.
  destruct (Req_dec_T (Spec.distance mx my wx wy) 0) as [H | _];
    [contradiction |].
  destruct (Req_dec_T (c * Spec.distance mx my wx wy) 0) as [H | _];
    [nra |].
  do 3 f_equal. field. split; lra.
Qed.

Lemma one_hand_scale_invariant_witness :
  exists g g',
    calculateGestureData Examples.one_open_hand = Normal g
    /\ calculateGestureData {| landmarks := Some [Samples.large_open_hand] |}
       = Normal g'
    /\ expansion g' = expansion g.
Proof.
  apply (one_hand_scale_invariant Examples.open_hand Samples.large_open_hand
           (Examples.landmark 0.4 0.6) (Examples.landmark 0.6 0.6)
           (Examples.landmark 0.5 0.8) (Examples.landmark 0.5 0.6)
           (Samples.scaled_landmark 0.5 0.8 2 0.4 0.6)
           (Samples.scaled_landmark 0.5 0.8 2 0.6 0.6)
           (Samples.scaled_landmark 0.5 0.8 2 0.5 0.8)
           (Samples.scaled_landmark 0.5 0.8 2 0.5 0.6)
           0.4 0.6 0.6 0.6 0.5 0.8 0.5 0.6 0.5 0.8 2);
    try reflexivity; [lra |].
  rewrite distance_vertical by lra. lra.
Defined.

End GestureLaws.

(* ================================================================= *)
(** ** The animation: ranges and spin *)

Section AnimationLaws.

Import Vision ParticleMesh.

Lemma useFrame_in_range shape color gesture t refs :
  Spec.in_unit (expansion gesture) -> Spec.in_unit (lift gesture) ->
  Animation.in_range refs ->
  Animation.in_range (useFrame shape color gesture t refs).
Proof.
  intros (e & He & He01) (l & Hl & Hl01)
         (m & p & cur & rx & Hm & Hp & Hcur & Hcur01 & Hrx & Hrx01).
  destruct refs as [mr pr]. cbn [materialRef meshRef] in Hm, Hp. subst mr pr.
  destruct (useFrame_step shape color gesture t m p cur rx e l Hcur Hrx He Hl)
    as (m' & p' & Hstep & Hm' & Hp').
  rewrite Hstep. exists m', p'. do 2 eexists.
  split; [reflexivity |]. split; [reflexivity |].
  split; [exact Hm' |]. split; [nra |].
  split; [exact Hp' | nra].
Qed.

(** The smoothed state never leaves its range: from an expansion uniform
    in [0, 1] and a tilt in [-0.75, 0.75], any number of frames under
    gestures with expansion and lift in [0, 1], changing from frame to
    frame, leaves both in these intervals. *)
Theorem frames_stay_in_range shape color inputs refs :
  Animation.gestures_in_range inputs ->
  Animation.in_range refs ->
  Animation.in_range (Animation.frames_with shape color inputs refs).
Proof.
  intros Hin. revert refs.
  induction Hin as [| [g t] inputs [Hg Hl] _ IH]; intros refs Hrefs.
  - exact Hrefs.
  - unfold Animation.frames_with in *. cbn [fold_left fst snd].
    apply IH. now apply useFrame_in_range.
Qed.

Lemma frames_stay_in_range_witness :
  Animation.in_range
    (Animation.frames_with HEART "#ff007f"
       [(Examples.open_high, Fin 0.1);
        ({| expansion := Fin 0; lift := Fin 1 |}, Fin 0.2)]
       {| materialRef := Some Examples.rest_material;
          meshRef := Some Examples.rest_points |}).
Proof.
  apply frames_stay_in_range.
  - repeat constructor; cbn; eexists; (split; [reflexivity | lra]).
  - exists Examples.rest_material, Examples.rest_points, 0, 0.
    repeat (split; [reflexivity || lra |]). lra.
Defined.

(** The smoothing never overshoots: after a frame the expansion uniform
    lies between its previous value and the gesture's expansion, and the
    tilt between its previous value and the tilt target. *)
Theorem useFrame_no_overshoot shape color gesture t m p cur rx e l :
  uExpansion m = Fin cur -> rotation_x p = Fin rx ->
  expansion gesture = Fin e -> lift gesture = Fin l ->
  exists m' p' cur' rx',
    useFrame shape color gesture t {| materialRef := Some m; meshRef := Some p |}
      = {| materialRef := Some m'; meshRef := Some p' |}
    /\ uExpansion m' = Fin cur' /\ Rmin cur e <= cur' <= Rmax cur e
    /\ rotation_x p' = Fin rx'
    /\ Rmin rx ((l - 0.5) * 1.5) <= rx' <= Rmax rx ((l - 0.5) * 1.5).
Proof.
  intros Hcur Hrx He Hl.
  destruct (useFrame_step shape color gesture t m p cur rx e l Hcur Hrx He Hl)
    as (m' & p' & Hstep & Hm' & Hp').
  exists m', p'. do 2 eexists. split; [exact Hstep |].
  split; [exact Hm' |]. split.
  - unfold Rmin, Rmax. destruct (Rle_dec cur e); lra.
  - split; [exact Hp' |].
    unfold Rmin, Rmax. destruct (Rle_dec rx ((l - 0.5) * 1.5)); lra.
Qed.

Lemma useFrame_no_overshoot_witness :
  exists m' p' cur' rx',
    useFrame HEART "#ff007f" Examples.open_high (Fin 0.1)
      {| materialRef := Some Examples.rest_material;
         meshRef := Some Examples.rest_points |}
      = {| materialRef := Some m'; meshRef := Some p' |}
    /\ uExpansion m' = Fin cur' /\ Rmin 0 1 <= cur' <= Rmax 0 1
    /\ rotation_x p' = Fin rx'
    /\ Rmin 0 ((0 - 0.5) * 1.5) <= rx' <= Rmax 0 ((0 - 0.5) * 1.5).
Proof.
  exact (useFrame_no_overshoot HEART "#ff007f" Examples.open_high (Fin 0.1)
           Examples.rest_material Examples.rest_points 0 0 1 0
           eq_refl eq_refl eq_refl eq_refl).
Defined.

Lemma useFrame_spin shape color gesture t mr p ry :
  rotation_y p = Fin ry ->
  exists mr' p',
    useFrame shape color gesture t {| materialRef := mr; meshRef := Some p |}
      = {| materialRef := mr'; meshRef := Some p' |}
    /\ rotation_y p'
       = Fin (if negb (String.eqb shape HEART) && negb (String.eqb shape DL)
              then ry + 0.001 else ry).
Proof.
  intros Hry. unfold useFrame. cbn [materialRef meshRef].
  do 2 eexists. split; [reflexivity |]. cbn [rotation_y].
  rewrite Hry.
  now destruct (negb (String.eqb shape HEART) && negb (String.eqb shape DL)).
Qed.

Lemma frames_spin shape color inputs mr p ry :
  rotation_y p = Fin ry ->
  exists mr' p',
    Animation.frames_with shape color inputs
      {| materialRef := mr; meshRef := Some p |}
      = {| materialRef := mr'; meshRef := Some p' |}
    /\ rotation_y p'
       = Fin (if negb (String.eqb shape HEART) && negb (String.eqb shape DL)
              then ry + 0.001 * INR (length inputs) else ry).
Proof.
  revert mr p ry.
  induction inputs as [| [g t] inputs IH]; intros mr p ry Hry.
  - exists mr, p. split; [reflexivity |]. rewrite Hry. cbn [length INR].
    destruct (negb _ && negb _); f_equal; ring.
  - destruct (useFrame_spin shape color g t mr p ry Hry)
      as (mr1 & p1 & Hstep & Hp1).
    destruct (IH mr1 p1 _ Hp1) as (mr' & p' & Hrun & Hp').
    exists mr', p'. unfold Animation.frames_with in *.
    cbn [fold_left fst snd]. rewrite Hstep, Hrun.
    split; [reflexivity |]. rewrite Hp'.
    change (length ((g, t) :: inputs)) with (S (length inputs)).
    rewrite S_INR.
    destruct (negb _ && negb _); f_equal; ring.
Qed.

(** The idle spin: each frame turns the field by 0.001 about the vertical
    axis, whatever the gesture, except for the heart and the lettering,
    which are never turned. *)
Theorem idle_spin shape color inputs mr p ry :
  rotation_y p = Fin ry ->
  exists mr' p',
    Animation.frames_with shape color inputs
      {| materialRef := mr; meshRef := Some p |}
      = {| materialRef := mr'; meshRef := Some p' |}
    /\ (shape = HEART \/ shape = DL -> rotation_y p' = Fin ry)
    /\ (shape <> HEART -> shape <> DL ->
        rotation_y p' = Fin (ry + 0.001 * INR (length inputs))).
Proof.
  intros Hry.
  destruct (frames_spin shape color inputs mr p ry Hry)
    as (mr' & p' & Hrun & Hp').
  exists mr', p'. split; [exact Hrun |]. split.
  - intros [-> | ->]; exact Hp'.
  - intros H1 H2. apply String.eqb_neq in H1, H2.
    now rewrite H1, H2 in Hp'.
Qed.

Lemma idle_spin_witness :
  exists mr' p',
    Animation.frames_with SATURN "#ff007f"
      [(Examples.open_high, Fin 0.1); (Examples.open_high, Fin 0.2)]
      {| materialRef := None; meshRef := Some Examples.rest_points |}
      = {| materialRef := mr'; meshRef := Some p' |}
    /\ rotation_y p' = Fin (0 + 0.001 * INR 2).
Proof.
  destruct (idle_spin SATURN "#ff007f"
              [(Examples.open_high, Fin 0.1); (Examples.open_high, Fin 0.2)]
              None Examples.rest_points 0 eq_refl)
    as (mr' & p' & Hrun & _ & Hspin).
  exists mr', p'. split; [exact Hrun |].
  apply Hspin; discriminate.
Defined.

End AnimationLaws.

(* ================================================================= *)
(** ** The shaders *)

Section ShaderLaws.

Import Shader.

(** [rotateY] is a rotation about the vertical axis: it keeps the height
    of a point and its distance to the axis. *)
Theorem rotateY_rotation v angle :
  vy (rotateY v angle) = vy v
  /\ vx (rotateY v angle) ^ 2 + vz (rotateY v angle) ^ 2
     = vx v ^ 2 + vz v ^ 2.
Proof.
  split; [reflexivity |]. unfold rotateY. cbn [vx vz].
  pose proof (sin_cos_square angle) as Hid.
  transitivity ((vx v ^ 2 + vz v ^ 2)
                * (sin angle * sin angle + cos angle * cos angle));
    [ring | rewrite Hid; ring].
Qed.

Lemma breathing_small uTime uExpansion position :
  0 <= uExpansion <= 1 ->
  Rabs (breathing uTime uExpansion position) <= 0.05.
Proof.
  intros He. unfold breathing.
  pose proof (SIN_bound (uTime * 2.0 + vy position * 0.5)) as Hs.
  apply Rabs_le. split; nra.
Qed.

(** With the expansion uniform at 0 the vertex shader only breathes: the
    vertex stays on the ray from the origin through its position, at a
    distance that differs from the original by at most 5 percent; the
    explosion direction plays no part. *)
Theorem vertex_at_rest uTime position aRandom :
  finalPos uTime 0 position aRandom
  = vec3_scale position (1 + breathing uTime 0 position)
  /\ 0.95 <= 1 + breathing uTime 0 position <= 1.05.
Proof.
  split.
  - unfold finalPos, rotateY, vec3_add, vec3_scale. cbn [vx vy vz].
    rewrite Rmult_0_l, sin_0, cos_0.
    destruct position as [px py pz]. cbn [vx vy vz]. f_equal; ring.
  - pose proof (breathing_small uTime 0 position ltac:(lra)) as Hb.
    unfold Rabs in Hb. destruct (Rcase_abs _); lra.
Qed.

Lemma strength_range d :
  0 <= d ->
  0 <= glsl_clamp (0.05 / (d + 0.05) - 0.1) 0.0 1.0 <= 0.9
  /\ (0.45 <= d -> glsl_clamp (0.05 / (d + 0.05) - 0.1) 0.0 1.0 = 0).
Proof.
  intros Hd.
  assert (Hpos : 0 < d + 0.05) by lra.
  assert (Hq : 0 < 0.05 / (d + 0.05) <= 1).
  { split.
    - apply Rdiv_lt_0_compat; lra.
    - apply Rmult_le_reg_r with (d + 0.05); [assumption |].
      unfold Rdiv. rewrite Rmult_assoc, Rinv_l by lra. lra. }
  unfold glsl_clamp, Rmin, Rmax. split.
  - destruct (Rle_dec (0.05 / (d + 0.05) - 0.1) 0.0);
      destruct (Rle_dec _ 1.0); lra.
  - intros Hfar.
    assert (Hle : 0.05 / (d + 0.05) <= 0.1).
    { apply Rmult_le_reg_r with (d + 0.05); [assumption |].
      unfold Rdiv. rewrite Rmult_assoc, Rinv_l by lra. lra. }
    destruct (Rle_dec (0.05 / (d + 0.05) - 0.1) 0.0);
      destruct (Rle_dec _ 1.0); lra.
Qed.

Lemma vAlpha_range uExpansion :
  0 <= uExpansion <= 1 -> 0.5 <= vAlpha uExpansion <= 1.
Proof. unfold vAlpha. lra. Qed.

(** The fragment shader draws each particle as a disc.  For an expansion
    uniform in [0, 1] and a colour with channels in [0, 1]: a fragment
    farther than 0.5 from the centre of the point is discarded, one farther
    than 0.45 is fully transparent, the opacity lies in [0, 0.9], and each
    colour channel lies between the uniform colour and white. *)
Theorem fragment_disc px py uColor uExpansion :
  0 <= uExpansion <= 1 ->
  0 <= vx uColor <= 1 -> 0 <= vy uColor <= 1 -> 0 <= vz uColor <= 1 ->
  let dist := sqrt ((px - 0.5) * (px - 0.5) + (py - 0.5) * (py - 0.5)) in
  (0.5 < dist -> fragment px py uColor (vAlpha uExpansion) = None)
  /\ (dist <= 0.5 ->
      exists c,
        fragment px py uColor (vAlpha uExpansion) = Some c
        /\ 0 <= alpha c <= 0.9
        /\ (0.45 <= dist -> alpha c = 0)
        /\ vx uColor <= red c <= 1
        /\ vy uColor <= green c <= 1
        /\ vz uColor <= blue c <= 1).
Proof.
  intros He Hr Hg Hb dist. unfold fragment. fold dist.
  pose proof (vAlpha_range uExpansion He) as Ha.
  set (a := vAlpha uExpansion) in *. clearbody a.
  assert (Hd : 0 <= dist) by apply sqrt_pos.
  destruct (strength_range dist Hd) as [Hs Hzero].
  set (strength := glsl_clamp (0.05 / (dist + 0.05) - 0.1) 0.0 1.0) in *.
  clearbody strength.
  split.
  - intros Hfar. destruct (Rlt_dec 0.5 dist); [reflexivity | lra].
  - intros Hnear. destruct (Rlt_dec 0.5 dist); [lra |].
    eexists. split; [reflexivity |]. cbn [red green blue alpha].
    unfold mix. split; [nra |]. split.
    + intros Hedge. rewrite (Hzero Hedge). ring.
    + repeat split; nra.
Qed.

Lemma fragment_disc_witness :
  exists c,
    fragment 0.5 0.5 {| vx := 1; vy := 0; vz := 0.5 |} (vAlpha 1) = Some c
    /\ 0 <= alpha c <= 0.9.
Proof.
  destruct (fragment_disc 0.5 0.5 {| vx := 1; vy := 0; vz := 0.5 |} 1)
    as [_ Hin]; cbn [vx vy vz]; try lra.
  destruct Hin as (c & Hc & Halpha & _).
  - replace ((0.5 - 0.5) * (0.5 - 0.5) + (0.5 - 0.5) * (0.5 - 0.5)) with 0
      by ring.
    rewrite sqrt_0. lra.
  - now exists c.
Defined.

End ShaderLaws.

(* ================================================================= *)
(** ** The detection loop: what never stops and what is kept *)

Section LoopLaws.

Import Vision App.

Lemma run_app frames1 frames2 st :
  run (frames1 ++ frames2) st = run frames2 (run frames1 st).
Proof. unfold run. apply fold_left_app. Qed.

(** The loop never stops by itself: whatever the detector, the video and
    the results are, frame after frame, every run requests the next one,
    so after [n] frames [n] requests have been made and the handle of the
    last one is kept for the cleanup. *)
Theorem run_never_stops frames st :
  frameRequests (run frames st) = (frameRequests st + length frames)%nat
  /\ (frames <> [] ->
      requestRef (run frames st)
      = Some (frameRequests st + length frames)%nat).
Proof.
  revert st. induction frames as [| f frames IH] using rev_ind; intros st.
  - cbn. split; [lia | congruence].
  - rewrite run_app, length_app. cbn [length]. unfold run at 1 3.
    cbn [fold_left].
    destruct (loop_requests_frame (frame_detector f) (frame_video f)
                (frame_now f) (run frames st)) as [Href Hcount].
    destruct (IH st) as [Hn _]. rewrite Href, Hcount, Hn.
    split; [lia | intros _; f_equal; lia].
Qed.

Lemma loop_on_throw handLandmarker video now st result hands e :
  (2 <= readyState video)%nat ->
  detectHands handLandmarker video now = Some result ->
  landmarks result = Some hands ->
  calculateGestureData result = Throw e ->
  loop handLandmarker (Some video) now st
  = requestAnimationFrame_loop
      (setDetectedHands 0
         (console_error ("detectHands error " ++ e)%string
            (setDetectedHands (length hands) st))).
Proof.
  intros Hready Hdetect Hhands Hthrow. unfold loop, loop_try.
  rewrite Hdetect, Hhands, Hthrow.
  now destruct (Nat.leb_spec 2 (readyState video)); [| lia].
Qed.

(** A result the calculator cannot read, such as a hand with too few
    landmarks, does not stop the loop: the exception is caught and written
    to the console, the hand count shown is 0, the gesture mailbox keeps
    its value, and the next frame is requested. *)
Theorem loop_survives_bad_result handLandmarker video now st result hands e :
  (2 <= readyState video)%nat ->
  detectHands handLandmarker video now = Some result ->
  landmarks result = Some hands ->
  calculateGestureData result = Throw e ->
  detectedHands (loop handLandmarker (Some video) now st) = 0%nat
  /\ gestureRef (loop handLandmarker (Some video) now st) = gestureRef st
  /\ console (loop handLandmarker (Some video) now st)
     = console st ++ [("detectHands error " ++ e)%string]
  /\ requestRef (loop handLandmarker (Some video) now st)
     = Some (S (frameRequests st)).
Proof.
  intros Hready Hdetect Hhands Hthrow.
  rewrite (loop_on_throw _ _ _ _ _ _ _ Hready Hdetect Hhands Hthrow).
  repeat split.
Qed.

Lemma short_hand_throws :
  calculateGestureData Samples.short_hand = Throw "TypeError".
Proof. reflexivity. Qed.

Lemma loop_survives_bad_result_witness :
  detectedHands (loop (Some Samples.short_hand_detector)
                      (Some Examples.ready_video) (Fin 0) Examples.tracking)
  = 0%nat
  /\ gestureRef (loop (Some Samples.short_hand_detector)
                      (Some Examples.ready_video) (Fin 0) Examples.tracking)
     = gestureRef Examples.tracking
  /\ console (loop (Some Samples.short_hand_detector)
                   (Some Examples.ready_video) (Fin 0) Examples.tracking)
     = ["detectHands error TypeError"%string]
  /\ requestRef (loop (Some Samples.short_hand_detector)
                      (Some Examples.ready_video) (Fin 0) Examples.tracking)
     = Some 8%nat.
Proof.
  apply (loop_survives_bad_result (Some Samples.short_hand_detector)
           Examples.ready_video (Fin 0) Examples.tracking Samples.short_hand
           [replicate 5 (Examples.landmark 0.5 0.5)] "TypeError");
    [cbn; lia | reflexivity | reflexivity | exact short_hand_throws].
Defined.

Lemma loop_mailbox handLandmarker videoRef now st :
  gestureRef (loop handLandmarker videoRef now st) = gestureRef st
  \/ exists result,
       calculateGestureData result
       = Normal (gestureRef (loop handLandmarker videoRef now st)).
Proof.
  unfold loop, requestAnimationFrame_loop. cbn [gestureRef].
  destruct videoRef as [video |]; [| now left].
  destruct (2 <=? readyState video)%nat; [| now left].
  unfold loop_try.
  destruct (detectHands handLandmarker video now) as [result |]; [| now left].
  destruct (landmarks result) as [hands |]; [| now left].
  destruct (calculateGestureData result) as [data | e] eqn:Hcalc;
    [right; now exists result | now left].
Qed.

(** The gesture mailbox only ever holds its initial value or a value
    returned by the calculator; so, from an expansion that is in [0, 1] or
    NaN, the expansion read by the render loop is in [0, 1] or NaN after
    any sequence of frames, whatever the detector reports. *)
Theorem mailbox_expansion_invariant frames st :
  expansion (gestureRef st) = NaN \/ Spec.in_unit (expansion (gestureRef st)) ->
  expansion (gestureRef (run frames st)) = NaN
  \/ Spec.in_unit (expansion (gestureRef (run frames st))).
Proof.
  revert st. induction frames as [| f frames IH]; intros st Hst.
  - exact Hst.
  - unfold run in *. cbn [fold_left]. apply IH.
    destruct (loop_mailbox (frame_detector f) (frame_video f) (frame_now f) st)
      as [-> | (result & Hcalc)]; [exact Hst |].
    exact (expansion_range_any result _ Hcalc).
Qed.

Lemma mailbox_expansion_invariant_witness :
  expansion (gestureRef
               (run [ {| frame_detector := Some Examples.blind_detector;
                         frame_video := Some Examples.ready_video;
                         frame_now := Fin 0 |} ] Examples.tracking)) = NaN
  \/ Spec.in_unit
       (expansion (gestureRef
          (run [ {| frame_detector := Some Examples.blind_detector;
                    frame_video := Some Examples.ready_video;
                    frame_now := Fin 0 |} ] Examples.tracking))).
Proof.
  apply mailbox_expansion_invariant.
  right. exists 1. split; [reflexivity | lra].
Defined.

End LoopLaws.

(* ================================================================= *)
(** ** Starting up *)

Section StartupLaws.

Import Startup.

Lemma starts_with_ci_app word : forall mid rest,
  lower mid = lower word -> starts_with_ci word (mid ++ rest) = true.
Proof.
  induction word as [| a word IH]; intros mid rest Hlow; [reflexivity |].
  destruct mid as [| b mid]; [discriminate |].
  cbn [lower] in Hlow. injection Hlow as Hhead Htail.
  cbn [String.append starts_with_ci].
  rewrite Hhead, Ascii.eqb_refl. now apply IH.
Qed.

Lemma test_ci_app word pre mid post :
  lower mid = lower word -> test_ci word (pre ++ mid ++ post) = true.
Proof.
  intros Hlow. induction pre as [| c pre IH].
  - cbn [String.append]. destruct (mid ++ post)%string eqn:Heq;
      cbn [test_ci]; rewrite <- Heq, starts_with_ci_app by assumption;
      reflexivity.
  - cbn [String.append test_ci]. rewrite IH. apply orb_true_r.
Qed.

(** The network words win: an error whose message contains one of wasm,
    cdn, fetch, network or err, in any letter case, is reported as a
    network or loading timeout, even when it is a [NotAllowedError] of the
    camera. *)
Theorem network_words_win err pre mid post word :
  In word network_words ->
  lower mid = lower word ->
  match message err with
  | Some m => m
  | None => as_string err
  end = (pre ++ mid ++ post)%string ->
  error_message err = network_message.
Proof.
  intros Hword Hlow Hmsg. unfold error_message. rewrite Hmsg.
  assert (Htest : test_any network_words (pre ++ mid ++ post) = true).
  { unfold test_any. apply existsb_exists. exists word.
    split; [exact Hword | now apply test_ci_app]. }
  rewrite Htest, orb_true_r. reflexivity.
Qed.

Lemma network_words_win_witness :
  error_message Samples.permission_error = network_message.
Proof.
  apply (network_words_win Samples.permission_error
           "Permission "%string "Err"%string "or: camera blocked"%string
           "ERR"%string).
  - cbn. tauto.
  - reflexivity.
  - reflexivity.
Defined.

End StartupLaws.

Section InitLaws.

Import Vision Init.

(** The detector is created at most once.  After a call that returned a
    detector, the module variable holds it and a further call returns the
    same detector without any call into the library; after a call that
    threw, the variable is still null and [detectHands] returns null. *)
Theorem initialize_once {Fileset Video : Type}
    (library : Library Fileset (HandLandmarker Video)) (base : string)
    (current : option (HandLandmarker Video)) :
  let out := initializeHandDetection library base current in
  (forall h, returned out = Normal h ->
     handLandmarker out = Some h
     /\ initializeHandDetection library base (handLandmarker out)
        = {| returned := Normal h; handLandmarker := Some h;
             library_calls := 0 |})
  /\ (forall e, returned out = Throw e ->
        current = None /\ handLandmarker out = None
        /\ forall video now,
             detectHands (handLandmarker out) video now = None).
Proof.
  unfold initializeHandDetection.
  destruct current as [h0 |].
  - cbn. split; [intros h [= <-]; now split | discriminate].
  - destruct (forVisionTasks library _) as [vision | e0].
    + destruct (createFromOptions library vision _) as [h1 | e1]; cbn.
      * split; [intros h [= <-]; now split | discriminate].
      * split; [discriminate | intros e _; now repeat split].
    + cbn. split; [discriminate | intros e _; now repeat split].
Qed.

End InitLaws.

(* ================================================================= *)
(** ** Fetching the model *)

Section ProvisionLaws.

Import Provision.

Variable server : string -> Reply.
Variable new_URL : string -> string -> completion string.
Variable dest : string.

(** [doReq] throws only when [https.get] does, at once. *)
Lemma doReq_Throw fuel u r e :
  doReq server new_URL dest fuel u r = Some (Throw e) -> server u = Thrown e.
Proof.
  destruct fuel as [| fuel]; [discriminate |].
  cbn [doReq]. destruct (server u) as [res | e' | e'].
  - destruct (redirect res) as [loc |]; [| discriminate].
    destruct (5 <? r)%nat; [discriminate |].
    destruct (next_url new_URL loc u) as [next | e'']; [| discriminate].
    destruct (doReq server new_URL dest fuel next (r + 1))
      as [[d | e''] |]; discriminate.
  - discriminate.
  - now intros [= ->].
Qed.

Lemma save_requests u res : requests (save dest u res) = [u].
Proof.
  unfold save. destruct (negb (statusCode res =? 200)%nat); [reflexivity |].
  now destruct (transfer res).
Qed.

(** Enough fuel: the recursion ends, after at most [7 - r] requests. *)
Lemma doReq_settles : forall fuel r u,
  (r <= 6)%nat -> (7 - r <= fuel)%nat ->
  exists c,
    doReq server new_URL dest fuel u r = Some c
    /\ match c with
       | Normal d => (1 <= length (requests d) <= 7 - r)%nat
       | Throw _ => True
       end.
Proof.
  induction fuel as [| fuel IH]; intros r u Hr Hfuel; [lia |].
  cbn [doReq]. destruct (server u) as [res | e | e].
  2,3: eexists; split; [reflexivity |]; cbn; lia || exact I.
  destruct (redirect res) as [loc |].
  - destruct (Nat.ltb_spec 5 r) as [Hmany | Hfew].
    + eexists. split; [reflexivity |]. cbn. lia.
    + destruct (next_url new_URL loc u) as [next | e].
      2:{ eexists. split; [reflexivity |]. cbn. lia. }
      destruct (IH (r + 1)%nat next ltac:(lia) ltac:(lia))
        as ([d | e] & -> & Hlen).
      * eexists. split; [reflexivity |]. cbn [requests length]. lia.
      * eexists. split; [reflexivity |]. cbn. lia.
  - eexists. split; [reflexivity |]. cbv beta iota.
    rewrite save_requests. cbn. lia.
Qed.


Lemma last_requests u (d : Download) :
  requests d <> [] -> last (u :: requests d) = last (requests d).
Proof.
  destruct (requests d) as [| q qs]; [intros H; now destruct H |]. intros _.
  reflexivity.
Qed.

(** When a run of [doReq] leaves the promise pending: the last request was
    answered, either with a status 200 whose transfer stalled, or with a
    redirect that could not be followed although the count allowed it. *)
Lemma doReq_pending : forall fuel r u d,
  doReq server new_URL dest fuel u r = Some (Normal d) ->
  requests d <> []
  /\ (settled d = Pending <->
      exists v res,
        last (requests d) = Some v /\ server v = Answered res
        /\ (stalled res
            \/ ((length (requests d) + r <= 6)%nat
                /\ unfollowable server new_URL v res))).
Proof.
  induction fuel as [| fuel IH]; intros r u d; [discriminate |].
  cbn [doReq]. destruct (server u) as [res | e | e] eqn:Hserver.
  3: discriminate.
  2:{ intros [= <-]. cbn [requests settled]. split; [discriminate |].
      split; [discriminate |].
      intros (v & res & [= <-] & Hv & _). congruence. }
  destruct (redirect res) as [loc |] eqn:Hredirect.
  - destruct (Nat.ltb_spec 5 r) as [Hmany | Hfew].
    { intros [= <-]. cbn [requests settled length].
      split; [discriminate |]. split; [discriminate |].
      intros (v & res' & [= <-] & Hv & Hwhy).
      rewrite Hserver in Hv. injection Hv as <-.
      destruct Hwhy as [(Hnone & _) | (Hcount & _)]; [congruence | lia]. }
    destruct (next_url new_URL loc u) as [next | e] eqn:Hnext.
    2:{ intros [= <-]. cbn [requests settled length].
        split; [discriminate |]. split; [| reflexivity]. intros _.
        exists u, res. split; [reflexivity |]. split; [exact Hserver |].
        right. split; [lia |]. exists loc. split; [exact Hredirect |].
        now rewrite Hnext. }
    destruct (doReq server new_URL dest fuel next (r + 1))
      as [[d' | e] |] eqn:Hrec; [| | discriminate].
    + intros [= <-]. cbn [requests settled].
      destruct (IH _ _ _ Hrec) as [Hsome Hiff].
      split; [discriminate |].
      rewrite last_requests by exact Hsome. cbn [length].
      rewrite Hiff. split; intros (v & res' & Hlast & Hv & Hwhy);
        exists v, res'; (split; [exact Hlast |]); (split; [exact Hv |]);
        (destruct Hwhy as [Hstall | [Hcount Hwhy]];
           [now left | right; split; [lia | exact Hwhy]]).
    + intros [= <-]. cbn [requests settled length].
      split; [discriminate |]. split; [| reflexivity]. intros _.
      exists u, res. split; [reflexivity |]. split; [exact Hserver |].
      right. split; [lia |]. exists loc. split; [exact Hredirect |].
      rewrite Hnext. exists e. exact (doReq_Throw _ _ _ _ Hrec).
  - intros [= <-]. rewrite save_requests. split; [discriminate |].
    cbn [last length].
    assert (Hhere : forall P : Response -> Prop,
               (exists v res', Some u = Some v /\ server v = Answered res'
                               /\ P res') <-> P res).
    { intros P. split.
      - intros (v & res' & [= <-] & Hv & HP).
        rewrite Hserver in Hv. now injection Hv as <-.
      - intros HP. now exists u, res. }
    unfold save.
    destruct (Nat.eqb_spec (statusCode res) 200) as [H200 | Hnot];
      cbn [negb settled].
    + destruct (transfer res) as [| kept [e |]] eqn:Htransfer; cbn [settled].
      * split; [discriminate |].
        intros (v & res' & [= <-] & Hv & Hwhy).
        rewrite Hserver in Hv. injection Hv as <-.
        destruct Hwhy as [(_ & _ & k & Hk) | (_ & l & Hl & _)]; congruence.
      * split; [discriminate |].
        intros (v & res' & [= <-] & Hv & Hwhy).
        rewrite Hserver in Hv. injection Hv as <-.
        destruct Hwhy as [(_ & _ & k & Hk) | (_ & l & Hl & _)]; congruence.
      * split; [| reflexivity]. intros _.
        exists u, res. split; [reflexivity |]. split; [exact Hserver |].
        left. split; [exact Hredirect |]. split; [exact H200 |].
        now exists kept.
    + split; [discriminate |].
      intros (v & res' & [= <-] & Hv & Hwhy).
      rewrite Hserver in Hv. injection Hv as <-.
      destruct Hwhy as [(_ & H200 & _) | (_ & l & Hl & _)]; congruence.
Qed.


Lemma doReq_redirecting :
  redirecting server -> resolving new_URL ->
  forall fuel r u,
    (r <= 6)%nat -> (7 - r <= fuel)%nat ->
    exists d v,
      doReq server new_URL dest fuel u r = Some (Normal d)
      /\ length (requests d) = (7 - r)%nat
      /\ last (requests d) = Some v
      /\ settled d = Rejected ("Too many redirects for " ++ v)
      /\ written d = None.
Proof.
  intros Hredirect Hresolve.
  induction fuel as [| fuel IH]; intros r u Hr Hfuel; [lia |].
  cbn [doReq].
  destruct (Hredirect u) as (res & loc & -> & [Hlo Hhi] & Hloc).
  unfold redirect.
  destruct (Nat.leb_spec 300 (statusCode res)); [| lia].
  destruct (Nat.ltb_spec (statusCode res) 400); [| lia].
  cbn [andb]. rewrite Hloc.
  destruct (Nat.ltb_spec 5 r) as [Hmany | Hfew].
  - exists {| settled := Rejected ("Too many redirects for " ++ u);
              requests := [u]; written := None |}, u.
    split; [reflexivity |]. cbn. split; [lia | auto].
  - assert (Hnext : exists next, next_url new_URL loc u = Normal next).
    { unfold next_url. destruct (String.prefix "http" loc); [now exists loc |].
      apply Hresolve. }
    destruct Hnext as (next & ->).
    destruct (IH (r + 1)%nat next ltac:(lia) ltac:(lia))
      as (d & v & -> & Hlen & Hlast & Hset & Hw).
    eexists. exists v. split; [reflexivity |]. cbn [requests settled written].
    split; [cbn [length]; lia |].
    split; [| auto].
    destruct (requests d) as [| q qs] eqn:Hreq; [discriminate |].
    rewrite last_cons, Hlast. reflexivity.
Qed.

(** Redirects are followed six times at most: when every request is
    answered by a redirect and every location can be resolved, [download]
    gives up at the seventh request, rejects with "Too many redirects" for
    the URL of that request and writes nothing. *)
Theorem download_gives_up url :
  redirecting server -> resolving new_URL ->
  exists d v,
    download server new_URL dest url = Some d
    /\ length (requests d) = 7%nat
    /\ last (requests d) = Some v
    /\ settled d = Rejected ("Too many redirects for " ++ v)
    /\ written d = None.
Proof.
  intros Hredirect Hresolve.
  destruct (doReq_redirecting Hredirect Hresolve 7 0 url ltac:(lia) ltac:(lia))
    as (d & v & Hd & Hrest).
  exists d, v. unfold download. rewrite Hd. now split.
Qed.

Lemma prefix_substring n : forall s,
  String.prefix (String.substring 0 n s) s = true.
Proof.
  induction n as [| n IH]; intros [| c s]; cbn; try reflexivity.
  destruct (Ascii.ascii_dec c c); [apply IH | contradiction].
Qed.

Lemma prefix_refl : forall s, String.prefix s s = true.
Proof.
  induction s as [| c s IH]; cbn; [reflexivity |].
  now destruct (Ascii.ascii_dec c c).
Qed.

(** What a run of [doReq] writes, and what it has written when the promise
    is resolved. *)
Lemma doReq_written : forall fuel r u d,
  doReq server new_URL dest fuel u r = Some (Normal d) ->
  (forall path content,
     written d = Some (path, content) ->
     path = dest
     /\ exists v res,
          last (requests d) = Some v /\ server v = Answered res
          /\ statusCode res = 200%nat
          /\ String.prefix content (body res) = true)
  /\ (forall path,
        settled d = Resolved path ->
        path = dest
        /\ exists v res,
             last (requests d) = Some v /\ server v = Answered res
             /\ statusCode res = 200%nat
             /\ written d = Some (dest, body res)).
Proof.
  induction fuel as [| fuel IH]; intros r u d; [discriminate |].
  cbn [doReq]. destruct (server u) as [res | e | e] eqn:Hserver.
  3: discriminate.
  2:{ intros [= <-]. cbn. split; intros; discriminate. }
  destruct (redirect res) as [loc |].
  - destruct (5 <? r)%nat.
    { intros [= <-]. cbn. split; intros; discriminate. }
    destruct (next_url new_URL loc u) as [next | e].
    2:{ intros [= <-]. cbn. split; intros; discriminate. }
    destruct (doReq server new_URL dest fuel next (r + 1))
      as [[d' | e] |] eqn:Hrec; [| | discriminate].
    + intros [= <-]. cbn [written settled requests].
      destruct (doReq_pending _ _ _ _ Hrec) as [Hsome _].
      rewrite last_requests by exact Hsome.
      exact (IH _ _ _ Hrec).
    + intros [= <-]. cbn. split; intros; discriminate.
  - intros [= <-]. unfold save.
    destruct (Nat.eqb_spec (statusCode res) 200) as [H200 | Hnot];
      cbn [negb].
    2:{ cbn. split; intros; discriminate. }
    destruct (transfer res) as [| [n |] error];
      cbn [settled written requests last].
    + split.
      * intros path content [= <- <-]. split; [reflexivity |].
        exists u, res. repeat split; try assumption. apply prefix_refl.
      * intros path [= <-]. split; [reflexivity |].
        exists u, res. now repeat split.
    + split.
      * intros path content [= <- <-]. split; [reflexivity |].
        exists u, res. repeat split; try assumption. apply prefix_substring.
      * destruct error; intros; discriminate.
    + split; [intros; discriminate |].
      destruct error; intros; discriminate.
Qed.

(** [download] writes no file but the destination, and only the body of a
    response with status 200 to the last URL requested, or an initial part
    of it; when the promise is resolved, it is with the destination, and
    the file holds that body whole. *)
Theorem download_writes_only_on_200 url d :
  download server new_URL dest url = Some d ->
  (forall path content,
     written d = Some (path, content) ->
     path = dest
     /\ exists v res,
          last (requests d) = Some v /\ server v = Answered res
          /\ statusCode res = 200%nat
          /\ String.prefix content (body res) = true)
  /\ (forall path,
        settled d = Resolved path ->
        path = dest
        /\ exists v res,
             last (requests d) = Some v /\ server v = Answered res
             /\ statusCode res = 200%nat
             /\ written d = Some (dest, body res)).
Proof.
  unfold download.
  destruct (doReq server new_URL dest 7 url 0) as [[d' | e] |] eqn:Hd;
    [| | discriminate].
  - intros [= <-]. exact (doReq_written _ _ _ _ Hd).
  - intros [= <-]. cbn. split; intros; discriminate.
Qed.

Lemma resolved_dest url d path :
  download server new_URL dest url = Some d ->
  settled d = Resolved path -> path = dest.
Proof.
  unfold download.
  destruct (doReq server new_URL dest 7 url 0) as [[d' | e] |] eqn:Hd;
    [| | discriminate].
  - intros [= <-] Hs. exact (proj1 (proj2 (doReq_written _ _ _ _ Hd) _ Hs)).
  - intros [= <-]. discriminate.
Qed.

(** The mirrors are tried in order and the empty entries are skipped: when
    the loop finishes, the URLs attempted are an initial part of the
    non-empty sources, they stop at the first download that succeeds, and
    when none succeeds every non-empty source has been attempted. *)
Theorem try_sources_in_order srcs ok tried :
  try_sources server new_URL dest srcs = Finished ok tried ->
  exists rest,
    List.filter (fun u => negb (String.eqb u "")) srcs = tried ++ rest
    /\ if ok
       then exists init u,
              tried = init ++ [u]
              /\ succeeds server new_URL dest u
              /\ Forall (fun v => ~ succeeds server new_URL dest v) init
       else rest = []
            /\ Forall (fun v => ~ succeeds server new_URL dest v) tried.
Proof.
  revert ok tried. induction srcs as [| url srcs IH]; intros ok tried.
  - intros [= <- <-]. exists []. split; [reflexivity |]. now split.
  - cbn [try_sources List.filter].
    destruct (String.eqb url "") eqn:Hempty; cbn [negb]; [apply IH |].
    destruct (download server new_URL dest url) as [d |] eqn:Hd; [| discriminate].
    destruct d as [[path | message |] reqs w]; [| | discriminate].
    + intros [= <- <-].
      exists (List.filter (fun u => negb (String.eqb u "")) srcs).
      split; [reflexivity |]. exists [], url.
      split; [reflexivity |]. split; [| constructor].
      exists {| settled := Resolved path; requests := reqs; written := w |}.
      split; [exact Hd |]. cbn. f_equal.
      exact (resolved_dest url _ path Hd eq_refl).
    + destruct (try_sources server new_URL dest srcs) as [ok' tried' | tried'];
        [| discriminate].
      intros [= <- <-].
      destruct (IH ok' tried' eq_refl) as (rest & Hfilter & Hok).
      exists rest. split; [now rewrite Hfilter |].
      assert (Hfail : ~ succeeds server new_URL dest url).
      { intros (d' & Hd' & Hs'). rewrite Hd in Hd'.
        injection Hd' as <-. discriminate. }
      destruct ok'.
      * destruct Hok as (init & u & -> & Hu & Hinit).
        exists (url :: init), u. split; [reflexivity |].
        split; [exact Hu | now constructor].
      * destruct Hok as [-> Hall]. split; [reflexivity | now constructor].
Qed.

(** When the loop is stuck, it is at the first source whose download is
    never settled: the downloads before it were rejected, and no source
    after it is attempted. *)
Theorem try_sources_stuck srcs tried :
  try_sources server new_URL dest srcs = Stuck tried ->
  exists init u rest,
    tried = init ++ [u]
    /\ List.filter (fun v => negb (String.eqb v "")) srcs = tried ++ rest
    /\ hangs server new_URL dest u
    /\ Forall (fun v => exists d message,
                 download server new_URL dest v = Some d
                 /\ settled d = Rejected message) init.
Proof.
  revert tried. induction srcs as [| url srcs IH]; intros tried; [discriminate |].
  cbn [try_sources List.filter].
  destruct (String.eqb url "") eqn:Hempty; cbn [negb]; [apply IH |].
  destruct (doReq_settles 7 0 url ltac:(lia) ltac:(lia)) as (c & Hc & _).
  assert (Hsome : exists d, download server new_URL dest url = Some d).
  { unfold download. rewrite Hc. destruct c; eauto. }
  destruct Hsome as (d & Hd). rewrite Hd.
  destruct d as [[path | message |] reqs w]; [discriminate | |].
  - destruct (try_sources server new_URL dest srcs) as [ok' tried' | tried'];
      [discriminate |].
    intros [= <-].
    destruct (IH tried' eq_refl) as (init & u & rest & -> & Hfilter & Hu & Hinit).
    exists (url :: init), u, rest. split; [reflexivity |].
    split; [now rewrite Hfilter |]. split; [exact Hu |].
    constructor; [| exact Hinit]. eauto.
  - intros [= <-].
    exists [], url, (List.filter (fun v => negb (String.eqb v "")) srcs).
    split; [reflexivity |]. split; [reflexivity |].
    split; [| constructor]. eexists. split; [exact Hd | reflexivity].
Qed.

End ProvisionLaws.

Section ProvisionExamples.

Import Provision.

Lemma download_writes_only_on_200_witness :
  download Networks.serving Networks.append_url "model.task" "https://a/m"
  = Some {| settled := Resolved "model.task";
            requests := ["https://a/m"%string];
            written := Some ("model.task"%string, "model"%string) |}
  /\ exists v res,
       last ["https://a/m"%string] = Some v
       /\ Networks.serving v = Answered res
       /\ statusCode res = 200%nat
       /\ Some ("model.task"%string, "model"%string)
          = Some ("model.task"%string, body res).
Proof.
  assert (Hd : download Networks.serving Networks.append_url "model.task"
                 "https://a/m"
               = Some {| settled := Resolved "model.task";
                         requests := ["https://a/m"%string];
                         written := Some ("model.task"%string,
                                          "model"%string) |})
    by reflexivity.
  split; [exact Hd |].
  destruct (download_writes_only_on_200 Networks.serving
              Networks.append_url "model.task" "https://a/m" _ Hd)
    as [_ Hresolved].
  exact (proj2 (Hresolved "model.task"%string eq_refl)).
Defined.

Lemma download_gives_up_witness :
  exists d v,
    download Networks.looping Networks.append_url "model.task" "https://a/m"
    = Some d
    /\ length (requests d) = 7%nat
    /\ last (requests d) = Some v
    /\ settled d = Rejected ("Too many redirects for " ++ v)
    /\ written d = None.
Proof.
  apply download_gives_up.
  - intros u.
    exists {| statusCode := 302; location := Some "/next"%string;
              body := ""%string; transfer := Finish |}, "/next"%string.
    split; [reflexivity |]. split; [cbn; lia | reflexivity].
  - intros loc u. now exists (u ++ loc)%string.
Defined.

Lemma try_sources_in_order_witness :
  exists rest,
    List.filter (fun u => negb (String.eqb u "")) (sources None)
    = [ "https://storage.googleapis.com/mediapipe-models/hand_landmarker/hand_landmarker/float16/1/hand_landmarker.task"%string;
        "https://aistudiocdn.com/mediapipe-models/hand_landmarker/hand_landmarker/float16/1/hand_landmarker.task"%string ]
      ++ rest
    /\ rest = [].
Proof.
  destruct (try_sources_in_order Networks.unreachable Networks.append_url
              "model.task" (sources None) false _ eq_refl)
    as (rest & Hfilter & Hrest & _).
  exists rest. split; [exact Hfilter | exact Hrest].
Defined.

(** The first mirror redirects to a plain http address: its download is
    never settled and the second mirror is never tried. *)
Lemma try_sources_stuck_witness :
  exists init u rest,
    [ "https://storage.googleapis.com/mediapipe-models/hand_landmarker/hand_landmarker/float16/1/hand_landmarker.task"%string ]
    = init ++ [u]
    /\ List.filter (fun v => negb (String.eqb v "")) (sources None)
       = (init ++ [u]) ++ rest
    /\ hangs Networks.downgrading Networks.append_url "model.task" u.
Proof.
  destruct (try_sources_stuck Networks.downgrading Networks.append_url
              "model.task" (sources None) _ eq_refl)
    as (init & u & rest & Htried & Hfilter & Hu & _).
  exists init, u, rest. split; [exact Htried |].
  split; [now rewrite <- Htried | exact Hu].
Defined.

End ProvisionExamples.
